(** * Approviz savings estimator

    A shallow embedding of the two implementations of the savings formula,
    [calculateSavings] (js/model.js, with its table in js/config.js) and the
    older [calculerEconomies] (the inline js/main.js), of the controllers
    of the two js/main.js files, and the properties the specification states
    about them.

    Numbers.  A JavaScript Number is an IEEE 754 binary64 value.  Both
    calculators are embedded over binary64 in [B64], on the kernel's
    [float]: its operations are binary64's, with rounding to nearest, NaN,
    the infinities and the signed zeros, so what is proved there is proved
    of the arithmetic the code runs.  The calculator of js/model.js is
    embedded a second time over exact rationals with NaN ([JS],
    [calculateSavings]), the "decimal" reading of the specification, where
    no operation rounds or overflows; the requests of the specification and
    the NaN that an inherited name yields are stated there, and so are the
    tests of the older validator and the easing of the animation.

    Controllers.  The two js/main.js files wire the calculators to the page.
    The older validator, the error helpers of both files, the button test
    of the newer one, the product selection, the product cards and the
    counter animation are embedded over the part of the page they read and
    write ([DOM]): the four form controls with their groups, the products
    message, the checkboxes.  What they take from the browser (the parsed
    form values, the timestamps of the animation frames, the reduced-motion
    answer) is an argument; formatting of currency and parsing of the input
    strings are not modelled.  The newer [validateInputs] is not embedded:
    three of its string literals hold an unescaped quote, so the function
    has no reading as the file gives it, and neither has the submit handler
    that calls it. *)

From Stdlib Require Import Floats QArith Qcanon Qround Lqa.
From stdpp Require Import gmap strings list fin_maps numbers.

Local Open Scope Qc_scope.
#[local] Set Warnings "-inexact-float".

(** ** The fragment of JavaScript the code uses, over exact Numbers *)

Module JS.

(** A Number of the exact reading: a rational, or NaN. *)
Inductive number : Type :=
| Num (q : Qc)
| NaN.

#[global] Instance number_eq_dec : EqDecision number.
Proof. solve_decision. Defined.

(** [a + b] and [a * b] on Numbers: NaN is absorbing. *)
Definition add (a b : number) : number :=
  match a, b with
  | Num x, Num y => Num (x + y)
  | _, _ => NaN
  end.

Definition mul (a b : number) : number :=
  match a, b with
  | Num x, Num y => Num (x * y)
  | _, _ => NaN
  end.

#[global] Arguments add !_ !_ / : assert.
#[global] Arguments mul !_ !_ / : assert.

(** [a >= b]: false as soon as one side is NaN. *)
Definition number_ge (a b : number) : Prop :=
  match a, b with
  | Num x, Num y => y ≤ x
  | _, _ => False
  end.

(** [Math.round(x)]: the integer closest to [x], ties towards +∞,
    that is [floor (x + 1/2)]; [Math.round(NaN)] is NaN. *)
Definition round_half_up (x : Qc) : Z := Qfloor (this x + (1 # 2))%Q.

Definition Math_round (a : number) : number :=
  match a with
  | Num x => Num (Q2Qc (inject_Z (round_half_up x)))
  | NaN => NaN
  end.

#[global] Arguments round_half_up : simpl never.

(** The values a property read can produce here: [undefined], a Number, or
    an object (functions included). *)
Inductive value : Type :=
| VUndefined
| VNumber (n : number)
| VObject.

(** The property names every object literal inherits from
    [Object.prototype] in a browser: eleven methods and the [__proto__]
    accessor, which answers [Object.prototype] itself. *)
Definition Object_prototype_keys : list string :=
  [ "constructor"; "hasOwnProperty"; "isPrototypeOf"; "propertyIsEnumerable";
    "toLocaleString"; "toString"; "valueOf"; "__proto__";
    "__defineGetter__"; "__defineSetter__";
    "__lookupGetter__"; "__lookupSetter__" ].

Definition inherited (key : string) : bool :=
  bool_decide (key ∈ Object_prototype_keys).

(** [obj[key]] for an object literal [obj] whose own properties are all
    Numbers: the own property when there is one, else the property
    inherited from [Object.prototype], else [undefined]. *)
Definition Get (obj : gmap string number) (key : string) : value :=
  match obj !! key with
  | Some n => VNumber n
  | None => if inherited key then VObject else VUndefined
  end.

(** [ToBoolean]: [undefined], [0] and NaN are falsy, the rest truthy. *)
Definition ToBoolean (v : value) : bool :=
  match v with
  | VUndefined => false
  | VNumber (Num q) => negb (bool_decide (q = 0))
  | VNumber NaN => false
  | VObject => true
  end.

(** [ToNumber]: [undefined] gives NaN; a function or [Object.prototype]
    converts through its string form, which is not numeric, to NaN. *)
Definition ToNumber (v : value) : number :=
  match v with
  | VNumber n => n
  | VUndefined => NaN
  | VObject => NaN
  end.

(** [v ?? d]: [d] only when [v] is [undefined] (or [null]). *)
Definition nullish_coalesce (v d : value) : value :=
  match v with
  | VUndefined => d
  | _ => v
  end.

(** [v || d]: [d] when [v] is falsy. *)
Definition logical_or (v d : value) : value :=
  if ToBoolean v then v else d.

(** [arr.reduce(f, init)]: a left fold over the array. *)
Definition reduce {A B : Type} (f : B → A → B) (init : B) (arr : list A) : B :=
  fold_left f arr init.

(** [isNaN(a)], [!a], [a < b], [a <= b], [a > b], [a >= b] on Numbers: a
    comparison with NaN on either side is false. *)
Definition isNaN (a : number) : bool :=
  match a with
  | Num _ => false
  | NaN => true
  end.

Definition js_not (a : number) : bool := negb (ToBoolean (VNumber a)).

Definition js_lt (a b : number) : bool :=
  match a, b with
  | Num x, Num y => bool_decide (x < y)
  | _, _ => false
  end.

Definition js_le (a b : number) : bool :=
  match a, b with
  | Num x, Num y => bool_decide (x ≤ y)
  | _, _ => false
  end.

Definition js_gt (a b : number) : bool := js_lt b a.

Definition js_ge (a b : number) : bool := js_le b a.

(** [a - b]; [a / b] for a divisor that is not 0 (JavaScript answers an
    infinity for a zero divisor, which is outside the model: every use below
    has a non-zero divisor); [Math.min(a, b)]; [Math.pow(a, n)] for a whole
    exponent [n]. *)
Definition sub (a b : number) : number :=
  match a, b with
  | Num x, Num y => Num (x - y)
  | _, _ => NaN
  end.

Definition div (a b : number) : number :=
  match a, b with
  | Num x, Num y => Num (x / y)
  | _, _ => NaN
  end.

Definition Math_min (a b : number) : number :=
  match a, b with
  | Num x, Num y => if bool_decide (x ≤ y) then Num x else Num y
  | _, _ => NaN
  end.

Definition Math_pow (a : number) (n : nat) : number :=
  match n, a with
  | O, _ => Num 1
  | _, Num x => Num (x ^ n)
  | _, NaN => NaN
  end.

End JS.

Import JS.

Notation "'Z2N' z" := (Num (Q2Qc (inject_Z z))) (at level 9, z at level 9, only parsing).

(** ** The calculator of js/model.js over exact Numbers *)

(** js/config.js: [productSavings], imported by js/model.js as
    [productSavingsConfig]. *)
Definition productSavingsConfig : gmap string number :=
  list_to_map
    [ ("tshirt",          Z2N 7);
      ("hoodie",          Z2N 12);
      ("crewneck",        Z2N 10);
      ("manteau",         Z2N 50);
      ("mancheLongue",    Z2N 10);
      ("hoodieZipper",    Z2N 20);
      ("tuque",           Z2N 10);
      ("casquetteBrodee", Z2N 10) ].

(** The input record. *)
Record params : Type := {
  nbEmployes : Qc;
  tauxHoraire : Qc;
  heuresMensuelles : Qc;
  frequence : Qc;
  articlesSelectionnes : list string;
}.

(** js/model.js *)
Definition ADMIN_TIME_REDUCTION_RATE : number := Num (Q2Qc 0.70).

Record savings : Type := {
  adminSavings : number;
  productSavings : number;
  totalSavings : number;
}.

Definition calculateSavings (p : params) : savings :=
  let coutAdminAnnuel :=
    mul (mul (Num (heuresMensuelles p)) (Num (tauxHoraire p))) (Num (Q2Qc 12)) in
  let adminSavings := mul coutAdminAnnuel ADMIN_TIME_REDUCTION_RATE in
  let economiesProduits :=
    mul (reduce (λ total productId,
                   let economieUnitaire :=
                     nullish_coalesce (Get productSavingsConfig productId)
                                      (VNumber (Num 0)) in
                   add total (mul (ToNumber economieUnitaire) (Num (nbEmployes p))))
                (Num 0) (articlesSelectionnes p))
        (Num (frequence p)) in
  let totalSavings := add adminSavings economiesProduits in
  {| adminSavings := adminSavings;
     productSavings := economiesProduits;
     totalSavings := totalSavings |}.

(** ** What the loop adds up *)

(** What one selected identifier contributes per employee and per order, as
    [calculateSavings] reads it from its table. *)
Definition unitNew (productId : string) : number :=
  ToNumber (nullish_coalesce (Get productSavingsConfig productId) (VNumber (Num 0))).

(** Σ over the list of a per-identifier amount. *)
Definition total_of (u : string → number) (l : list string) : number :=
  foldr (λ id acc, add (u id) acc) (Num 0) l.

(** The unit savings of an identifier as the specification words it: the
    table entry, and [0] when the table has none. *)
Definition unitSavings (product : string) : number :=
  default (Num 0) (productSavingsConfig !! product).

(** ** Concrete requests *)

Definition mkParams (nb taux heures freq : Q) (articles : list string) : params :=
  {| nbEmployes := Q2Qc nb; tauxHoraire := Q2Qc taux;
     heuresMensuelles := Q2Qc heures; frequence := Q2Qc freq;
     articlesSelectionnes := articles |}.

Definition set_articles (articles : list string) (p : params) : params :=
  {| nbEmployes := nbEmployes p; tauxHoraire := tauxHoraire p;
     heuresMensuelles := heuresMensuelles p; frequence := frequence p;
     articlesSelectionnes := articles |}.

(** Decides a closed equation between Numbers by evaluation. *)
Ltac number_eval :=
  apply (bool_decide_eq_true_1 _); vm_compute; reflexivity.

(** ** The calculators over binary64 *)

(** JavaScript's Numbers are the IEEE 754 binary64 values, and so are the
    kernel's [float]s: [+], [*] and the comparisons below are binary64's,
    round to nearest, ties to even.  A decimal literal stands for the
    binary64 value closest to it, in JavaScript as here: [0.70] is
    0.6999999999999999555910790149937. *)
Module B64.

#[local] Open Scope float_scope.

Definition NaN : float := nan.

(** [Math.round(x)]: the whole number closest to [x], ties towards +∞, that
    is the floor of [x + 1/2] taken exactly; -0 when that is 0 and [x] is
    negative or -0.  NaN, the infinities and the zeros come back unchanged,
    and so does a finite [±m × 2^e] with [0 ≤ e], which is whole. *)
Definition Math_round (x : float) : float :=
  match Prim2SF x with
  | S754_finite s m e =>
      if (0 <=? e)%Z then x
      else
        let n := Z.shiftr (cond_Zopp s (Zpos m) + 2 ^ (- e - 1)) (- e) in
        SF2Prim (binary_normalize prec emax n 0 s)
  | _ => x
  end.

(** The values a property read can produce here: [undefined], a Number, or
    an object (functions included). *)
Inductive value : Type :=
| VUndefined
| VNumber (n : float)
| VObject.

(** [obj[key]] for an object literal [obj] whose own properties are all
    Numbers: the own property when there is one, else the property
    inherited from [Object.prototype], else [undefined]. *)
Definition Get (obj : gmap string float) (key : string) : value :=
  match obj !! key with
  | Some n => VNumber n
  | None => if inherited key then VObject else VUndefined
  end.

(** [ToBoolean]: [undefined], [+0], [-0] and NaN are falsy, the rest
    truthy. *)
Definition ToBoolean (v : value) : bool :=
  match v with
  | VUndefined => false
  | VNumber n => negb ((n =? 0) || is_nan n)
  | VObject => true
  end.

(** [ToNumber]: [undefined] gives NaN; a function or [Object.prototype]
    converts through its string form, which is not numeric, to NaN. *)
Definition ToNumber (v : value) : float :=
  match v with
  | VNumber n => n
  | VUndefined => NaN
  | VObject => NaN
  end.

(** [v ?? d] and [v || d]. *)
Definition nullish_coalesce (v d : value) : value :=
  match v with
  | VUndefined => d
  | _ => v
  end.

Definition logical_or (v d : value) : value :=
  if ToBoolean v then v else d.

(** js/config.js: [productSavings], imported by js/model.js as
    [productSavingsConfig]. *)
Definition productSavingsConfig : gmap string float :=
  list_to_map
    [ ("tshirt",          7);
      ("hoodie",          12);
      ("crewneck",        10);
      ("manteau",         50);
      ("mancheLongue",    10);
      ("hoodieZipper",    20);
      ("tuque",           10);
      ("casquetteBrodee", 10) ].

(** The input record, shared by both implementations. *)
Record params : Type := {
  nbEmployes : float;
  tauxHoraire : float;
  heuresMensuelles : float;
  frequence : float;
  articlesSelectionnes : list string;
}.

(** js/model.js *)
Definition ADMIN_TIME_REDUCTION_RATE : float := 0.70.

Record savings : Type := {
  adminSavings : float;
  productSavings : float;
  totalSavings : float;
}.

Definition calculateSavings (p : params) : savings :=
  let coutAdminAnnuel := heuresMensuelles p * tauxHoraire p * 12 in
  let adminSavings := coutAdminAnnuel * ADMIN_TIME_REDUCTION_RATE in
  let economiesProduits :=
    reduce (λ total productId,
              let economieUnitaire :=
                nullish_coalesce (Get productSavingsConfig productId) (VNumber 0) in
              total + ToNumber economieUnitaire * nbEmployes p)
           0 (articlesSelectionnes p)
    * frequence p in
  let totalSavings := adminSavings + economiesProduits in
  {| adminSavings := adminSavings;
     productSavings := economiesProduits;
     totalSavings := totalSavings |}.

(** The older js/main.js *)
Definition economieUnitaire : gmap string float :=
  list_to_map
    [ ("tshirt",          7);
      ("hoodie",          12);
      ("crewneck",        10);
      ("manteau",         50);
      ("mancheLongue",    10);
      ("hoodieZipper",    20);
      ("tuque",           10);
      ("casquetteBrodee", 10) ].

Record economies : Type := {
  economiesAdmin : float;
  economiesProduits : float;
  totalEconomies : float;
}.

Definition calculerEconomies (p : params) : economies :=
  let coutAdmin := heuresMensuelles p * tauxHoraire p * 12 in
  let economiesAdmin := coutAdmin * 0.70 in
  let economiesProduits :=
    reduce (λ total article,
              let unitaire :=
                logical_or (Get economieUnitaire article) (VNumber 0) in
              total + ToNumber unitaire * nbEmployes p)
           0 (articlesSelectionnes p)
    * frequence p in
  let totalEconomies := economiesAdmin + economiesProduits in
  {| economiesAdmin := Math_round economiesAdmin;
     economiesProduits := Math_round economiesProduits;
     totalEconomies := Math_round totalEconomies |}.

(** What one selected identifier contributes per employee and per order, as
    each implementation reads it from its table. *)
Definition unitNew (productId : string) : float :=
  ToNumber (nullish_coalesce (Get productSavingsConfig productId) (VNumber 0)).

Definition unitOld (article : string) : float :=
  ToNumber (logical_or (Get economieUnitaire article) (VNumber 0)).

(** The loop of the reducer, from a given running total: each identifier
    adds its unit amount times the number of employees. *)
Definition running (u : string → float) (nb : float) (total : float)
    (l : list string) : float :=
  fold_left (λ total id, total + u id * nb) l total.

(** Requests: a request from its five fields, and a request with one field
    replaced. *)
Definition mkParams (nb taux heures freq : float) (articles : list string) : params :=
  {| nbEmployes := nb; tauxHoraire := taux; heuresMensuelles := heures;
     frequence := freq; articlesSelectionnes := articles |}.

Definition set_nbEmployes (nb : float) (p : params) : params :=
  {| nbEmployes := nb; tauxHoraire := tauxHoraire p;
     heuresMensuelles := heuresMensuelles p; frequence := frequence p;
     articlesSelectionnes := articlesSelectionnes p |}.

Definition set_frequence (freq : float) (p : params) : params :=
  {| nbEmployes := nbEmployes p; tauxHoraire := tauxHoraire p;
     heuresMensuelles := heuresMensuelles p; frequence := freq;
     articlesSelectionnes := articlesSelectionnes p |}.

Definition set_articles (articles : list string) (p : params) : params :=
  {| nbEmployes := nbEmployes p; tauxHoraire := tauxHoraire p;
     heuresMensuelles := heuresMensuelles p; frequence := frequence p;
     articlesSelectionnes := articles |}.

(** The scenario of the specification; the smallest valid request; a
    request with an hourly rate of 10.75 $; a request with 2^1018 employees
    and frequency 0; a request with 3 × 2^-1074 employees. *)
Definition scenario : params := mkParams 10 20 5 4 ["tshirt"; "hoodie"].
Definition minimal : params := mkParams 1 1 1 1 ["tshirt"].
Definition fractionalRate : params := mkParams 10 10.75 5 4 ["tshirt"].
Definition huge : params := mkParams 0x1p1018 20 5 0 ["manteau"].
Definition tiny : params := mkParams 0x3p-1074 20 5 0.5 ["tshirt"].

(** *** Whole numbers *)

(** The number of significant bits of [p]. *)
Definition digits (p : positive) : Z := Zpos (digits2_pos p).

(** The whole number [p], of at most 53 bits, as binary64 holds it: a
    53-bit mantissa and the exponent that goes with it. *)
Definition whole_pos (s : bool) (p : positive) : spec_float :=
  S754_finite s (Pos.shiftl p (Z.to_N (53 - digits p))) (digits p - 53).

Definition whole_SF (n : N) : spec_float :=
  match n with
  | N0 => S754_zero false
  | Npos p => whole_pos false p
  end.

(** The Number that the whole literal [n] denotes, for [n] below 2^53. *)
Definition of_N (n : N) : float := SF2Prim (whole_SF n).

(** The amounts of the table as whole numbers, and their sum over a
    selection, an identifier outside the table counting for 0. *)
Definition units : gmap string N :=
  list_to_map
    [ ("tshirt",          7%N);
      ("hoodie",          12%N);
      ("crewneck",        10%N);
      ("manteau",         50%N);
      ("mancheLongue",    10%N);
      ("hoodieZipper",    20%N);
      ("tuque",           10%N);
      ("casquetteBrodee", 10%N) ].

Definition unitSum (l : list string) : N :=
  foldr (λ id acc, default 0 (units !! id) + acc)%N 0%N l.

(** The selection [l], [n] employees and frequency [f] keep every amount
    of the calculation below 2^53: the product of the three, each counted
    as 1 at least, is. *)
Definition in_range (l : list string) (n f : N) : Prop :=
  (N.max 1 (unitSum l) * N.max 1 n * N.max 1 f < 2 ^ 53)%N.

(** *** Sign *)

(** A binary64 value that is not below 0: a zero, a positive finite number
    or +∞.  A value that is finite: a zero or a finite number. *)
Definition nonneg_SF (x : spec_float) : Prop :=
  match x with
  | S754_zero _ | S754_finite false _ _ | S754_infinity false => True
  | _ => False
  end.

Definition bounded_SF (x : spec_float) : Prop :=
  match x with
  | S754_zero _ | S754_finite _ _ _ => True
  | _ => False
  end.

(** Raising the exponent by one, which is what doubling does to a normal
    number: past the largest exponent the result is an infinity. *)
Definition double_SF (x : spec_float) : spec_float :=
  match x with
  | S754_finite s m e =>
      if (e + 1 <=? emax - prec)%Z then S754_finite s m (e + 1)
      else S754_infinity s
  | _ => x
  end.

(** NaN, +Infinity, a zero, or a finite number that is at least 1. *)
Definition big_SF (x : spec_float) : Prop :=
  match x with
  | S754_zero _ | S754_nan | S754_infinity false => True
  | S754_finite false m e => (-52 ≤ e)%Z
  | _ => False
  end.

(** The double of a finite number is finite. *)
Definition doubles_SF (x : spec_float) : Prop :=
  match x with
  | S754_finite _ _ e => (e + 1 ≤ 971)%Z
  | _ => True
  end.

Definition nonfinite_SF (x : spec_float) : Prop :=
  x = S754_nan ∨ x = S754_infinity false.

End B64.

(** ** The page, as the controllers touch it *)

Module DOM.

(** An element: its class list, its attributes and its text. *)
Record element : Type := {
  classList : gset string;
  attributes : gmap string string;
  textContent : string;
}.

(** [document.createElement(tag)]: no class, no attribute, no text. *)
Definition createElement (tag : string) : element :=
  {| classList := ∅; attributes := ∅; textContent := "" |}.

Definition classList_add (c : string) (e : element) : element :=
  {| classList := {[ c ]} ∪ classList e; attributes := attributes e;
     textContent := textContent e |}.

Definition classList_remove (c : string) (e : element) : element :=
  {| classList := classList e ∖ {[ c ]}; attributes := attributes e;
     textContent := textContent e |}.

(** [e.classList.toggle(c, force)]: adds [c] when [force], else removes it. *)
Definition classList_toggle (c : string) (force : bool) (e : element) : element :=
  if force then classList_add c e else classList_remove c e.

(** [e.className = c] for a single class name [c]. *)
Definition set_className (c : string) (e : element) : element :=
  {| classList := {[ c ]}; attributes := attributes e;
     textContent := textContent e |}.

Definition setAttribute (k v : string) (e : element) : element :=
  {| classList := classList e; attributes := <[ k := v ]> (attributes e);
     textContent := textContent e |}.

Definition removeAttribute (k : string) (e : element) : element :=
  {| classList := classList e; attributes := delete k (attributes e);
     textContent := textContent e |}.

Definition set_textContent (t : string) (e : element) : element :=
  {| classList := classList e; attributes := attributes e; textContent := t |}.

(** An input or select of the form.  [group] is what the error helpers see
    of its surroundings: [None] when [closest('.form-group')] finds nothing,
    else the elements of that group which match the helper's error selector,
    in document order ([querySelector] answers the first). *)
Record control : Type := {
  self : element;
  group : option (list element);
}.

(** A product checkbox. *)
Record checkbox : Type := {
  checked : bool;
  value : string;
}.

End DOM.

Import DOM.

(** ** The form data, shared by both controllers *)

Module Form.

(** What [lireFormulaire] and [getFormData] return: four Numbers, each the
    result of [parseFloat] or [parseInt], so possibly NaN. *)
Record formData : Type := {
  nbEmployes : number;
  tauxHoraire : number;
  heuresMensuelles : number;
  frequence : number;
}.

End Form.

(** ** The older js/main.js: controller *)

Module OldMain.

Record page : Type := {
  inputNbEmployes : control;
  inputTauxHoraire : control;
  inputHeures : control;
  selectFrequence : control;
  productsError : element;
}.

Definition afficherErreurChamp (inputEl : control) (message : string) : control :=
  match group inputEl with
  | None => inputEl
  | Some found =>
      {| self := setAttribute "aria-invalid" "true"
                   (classList_add "is-invalid" (self inputEl));
         group := Some
           match found with
           | errorEl :: rest => set_textContent message errorEl :: rest
           | [] =>
               [ set_textContent message
                   (setAttribute "role" "alert"
                      (set_className "field-error" (createElement "span"))) ]
           end |}
  end.

Definition effacerErreurChamp (inputEl : control) : control :=
  match group inputEl with
  | None => inputEl
  | Some found =>
      {| self := removeAttribute "aria-invalid"
                   (classList_remove "is-invalid" (self inputEl));
         group := Some (tail found) |}
  end.

(** One global of the script replaced in the page. *)
Definition with_inputNbEmployes (c : control) (d : page) : page :=
  {| inputNbEmployes := c; inputTauxHoraire := inputTauxHoraire d;
     inputHeures := inputHeures d; selectFrequence := selectFrequence d;
     productsError := productsError d |}.

Definition with_inputTauxHoraire (c : control) (d : page) : page :=
  {| inputNbEmployes := inputNbEmployes d; inputTauxHoraire := c;
     inputHeures := inputHeures d; selectFrequence := selectFrequence d;
     productsError := productsError d |}.

Definition with_inputHeures (c : control) (d : page) : page :=
  {| inputNbEmployes := inputNbEmployes d; inputTauxHoraire := inputTauxHoraire d;
     inputHeures := c; selectFrequence := selectFrequence d;
     productsError := productsError d |}.

Definition with_selectFrequence (c : control) (d : page) : page :=
  {| inputNbEmployes := inputNbEmployes d; inputTauxHoraire := inputTauxHoraire d;
     inputHeures := inputHeures d; selectFrequence := c;
     productsError := productsError d |}.

Definition with_productsError (e : element) (d : page) : page :=
  {| inputNbEmployes := inputNbEmployes d; inputTauxHoraire := inputTauxHoraire d;
     inputHeures := inputHeures d; selectFrequence := selectFrequence d;
     productsError := e |}.

Definition effacerToutesLesErreurs (d : page) : page :=
  let d := with_inputNbEmployes (effacerErreurChamp (inputNbEmployes d)) d in
  let d := with_inputTauxHoraire (effacerErreurChamp (inputTauxHoraire d)) d in
  let d := with_inputHeures (effacerErreurChamp (inputHeures d)) d in
  with_selectFrequence (effacerErreurChamp (selectFrequence d)) d.

Definition validerFormulaire (formData : Form.formData)
    (articlesSelectionnes : list string) (d : page) : bool * page :=
  let estValide := true in
  (* Nombre d'employés *)
  let '(estValide, d) :=
    if js_not (Form.nbEmployes formData) || isNaN (Form.nbEmployes formData)
       || js_lt (Form.nbEmployes formData) (Num 1)
    then (false,
          with_inputNbEmployes
            (afficherErreurChamp (inputNbEmployes d)
               "Veuillez entrer un nombre d'employés valide (minimum 1).") d)
    else (estValide,
          with_inputNbEmployes (effacerErreurChamp (inputNbEmployes d)) d) in
  (* Taux horaire *)
  let '(estValide, d) :=
    if isNaN (Form.tauxHoraire formData)
       || js_lt (Form.tauxHoraire formData) (Num 0)
    then (false,
          with_inputTauxHoraire
            (afficherErreurChamp (inputTauxHoraire d)
               "Veuillez entrer un taux horaire valide (0 $ ou plus).") d)
    else (estValide,
          with_inputTauxHoraire (effacerErreurChamp (inputTauxHoraire d)) d) in
  (* Heures mensuelles *)
  let '(estValide, d) :=
    if isNaN (Form.heuresMensuelles formData)
       || js_lt (Form.heuresMensuelles formData) (Num 0)
    then (false,
          with_inputHeures
            (afficherErreurChamp (inputHeures d)
               "Veuillez entrer un nombre d'heures valide (0 ou plus).") d)
    else (estValide,
          with_inputHeures (effacerErreurChamp (inputHeures d)) d) in
  (* Fréquence *)
  let '(estValide, d) :=
    if js_not (Form.frequence formData) || isNaN (Form.frequence formData)
       || js_le (Form.frequence formData) (Num 0)
    then (false,
          with_selectFrequence
            (afficherErreurChamp (selectFrequence d)
               "Veuillez sélectionner une fréquence de commande.") d)
    else (estValide,
          with_selectFrequence (effacerErreurChamp (selectFrequence d)) d) in
  (* Au moins un produit sélectionné *)
  let '(estValide, d) :=
    if bool_decide (length articlesSelectionnes = 0%nat)
    then (false,
          with_productsError
            (removeAttribute "hidden"
               (set_textContent
                  "Veuillez sélectionner au moins un type d'article."
                  (productsError d))) d)
    else (estValide,
          with_productsError (setAttribute "hidden" "" (productsError d)) d) in
  (estValide, d).

Definition lireArticlesSelectionnes (productCheckboxes : list checkbox) : list string :=
  map value (filter (λ cb, checked cb = true) productCheckboxes).

(** A product card with the checkbox that [card.querySelector] finds in it,
    if any. *)
Record productCard : Type := {
  card : element;
  cardCheckbox : option checkbox;
}.

(** The click listener of a card; [onCheckbox] tells whether [event.target]
    is the checkbox itself.  A card without a checkbox gets no listener. *)
Definition onCardClick (onCheckbox : bool) (c : productCard) : productCard :=
  match cardCheckbox c with
  | None => c
  | Some checkbox =>
      if onCheckbox then c
      else
        let checkbox :=
          {| checked := negb (checked checkbox); value := value checkbox |} in
        {| card := classList_toggle "is-selected" (checked checkbox) (card c);
           cardCheckbox := Some checkbox |}
  end.

(** The change listener of the card's checkbox. *)
Definition onCheckboxChange (c : productCard) : productCard :=
  match cardCheckbox c with
  | None => c
  | Some checkbox =>
      {| card := classList_toggle "is-selected" (checked checkbox) (card c);
         cardCheckbox := Some checkbox |}
  end.

(** [easeOutCubic] and [step], the two inner functions of [animerCompteur].
    [step] takes the [startTime] it finds ([None] for [null]) and answers the
    [startTime] it leaves, the Number whose formatting is the element's text
    when it returns, and whether it asked for another frame. *)
Definition easeOutCubic (t : number) : number :=
  sub (Num 1) (Math_pow (sub (Num 1) t) 3).

Definition step (valeurFinale duree : number) (startTime : option number)
    (timestamp : number) : option number * number * bool :=
  let startTime :=
    match startTime with
    | Some s => if js_not s then timestamp else s
    | None => timestamp
    end in
  let elapsed := sub timestamp startTime in
  let progress := Math_min (div elapsed duree) (Num 1) in
  let eased := easeOutCubic progress in
  let valeurActuelle := Math_round (mul valeurFinale eased) in
  if js_lt progress (Num 1)
  then (Some startTime, valeurActuelle, true)
  else (Some startTime, valeurFinale, false).

(** The frames that the browser runs, one per timestamp, until [step] stops
    asking for one: the Numbers shown, in order. *)
Fixpoint frames (valeurFinale duree : number) (startTime : option number)
    (timestamps : list number) : list number :=
  match timestamps with
  | [] => []
  | timestamp :: timestamps =>
      let '(startTime, shown, again) :=
        step valeurFinale duree startTime timestamp in
      shown :: if again then frames valeurFinale duree startTime timestamps
               else []
  end.

(** [animerCompteur]: [reducedMotion] is what the media query answers,
    [duree] the third argument ([VUndefined] when omitted), [timestamps] what
    the browser passes to the successive frames. *)
Definition animerCompteur (reducedMotion : bool) (valeurFinale : number)
    (duree : JS.value) (timestamps : list number) : list number :=
  let duree := ToNumber (logical_or duree (VNumber (Num (Q2Qc 1500)))) in
  if reducedMotion then [valeurFinale]
  else frames valeurFinale duree None timestamps.

End OldMain.

(** ** The newer js/main.js: controller *)

Module NewMain.

Record page : Type := {
  inputNbEmployes : control;
  inputTauxHoraire : control;
  inputHeures : control;
  selectFrequence : control;
  productGrid : bool;
  productsErrorMsg : option element;
}.

Definition setFieldError (inputEl : control) (message : string) : control :=
  match group inputEl with
  | None => inputEl
  | Some found =>
      {| self := setAttribute "aria-invalid" "true"
                   (classList_add "is-invalid" (self inputEl));
         group := Some
           match found with
           | errorEl :: rest => set_textContent message errorEl :: rest
           | [] =>
               [ set_textContent message
                   (setAttribute "role" "alert"
                      (set_className "field-error-msg" (createElement "span"))) ]
           end |}
  end.

Definition clearFieldError (inputEl : control) : control :=
  match group inputEl with
  | None => inputEl
  | Some found =>
      {| self := removeAttribute "aria-invalid"
                   (classList_remove "is-invalid" (self inputEl));
         group := Some (tail found) |}
  end.

(** One global of the script replaced in the page. *)
Definition with_inputNbEmployes (c : control) (d : page) : page :=
  {| inputNbEmployes := c; inputTauxHoraire := inputTauxHoraire d;
     inputHeures := inputHeures d; selectFrequence := selectFrequence d;
     productGrid := productGrid d; productsErrorMsg := productsErrorMsg d |}.

Definition with_inputTauxHoraire (c : control) (d : page) : page :=
  {| inputNbEmployes := inputNbEmployes d; inputTauxHoraire := c;
     inputHeures := inputHeures d; selectFrequence := selectFrequence d;
     productGrid := productGrid d; productsErrorMsg := productsErrorMsg d |}.

Definition with_inputHeures (c : control) (d : page) : page :=
  {| inputNbEmployes := inputNbEmployes d; inputTauxHoraire := inputTauxHoraire d;
     inputHeures := c; selectFrequence := selectFrequence d;
     productGrid := productGrid d; productsErrorMsg := productsErrorMsg d |}.

Definition with_selectFrequence (c : control) (d : page) : page :=
  {| inputNbEmployes := inputNbEmployes d; inputTauxHoraire := inputTauxHoraire d;
     inputHeures := inputHeures d; selectFrequence := c;
     productGrid := productGrid d; productsErrorMsg := productsErrorMsg d |}.

Definition with_productsErrorMsg (e : option element) (d : page) : page :=
  {| inputNbEmployes := inputNbEmployes d; inputTauxHoraire := inputTauxHoraire d;
     inputHeures := inputHeures d; selectFrequence := selectFrequence d;
     productGrid := productGrid d; productsErrorMsg := e |}.

Definition clearAllErrors (d : page) : page :=
  let d := with_inputNbEmployes (clearFieldError (inputNbEmployes d)) d in
  let d := with_inputTauxHoraire (clearFieldError (inputTauxHoraire d)) d in
  let d := with_inputHeures (clearFieldError (inputHeures d)) d in
  with_selectFrequence (clearFieldError (selectFrequence d)) d.

(** The three Numbers are the [parseFloat] of the three input values. *)
Definition areMainFieldsValid (nb taux heures : number) : bool :=
  js_gt nb (Num 0) && js_ge taux (Num 0) && js_ge heures (Num 0)
  && negb (isNaN nb) && negb (isNaN taux) && negb (isNaN heures).

(** [updateButtonState]: the new value of [calculateBtn.disabled]. *)
Definition updateButtonState (nb taux heures : number) : bool :=
  negb (areMainFieldsValid nb taux heures).

Definition showProductsError (message : string) (d : page) : page :=
  if negb (productGrid d) then d
  else
    let errorEl :=
      match productsErrorMsg d with
      | Some errorEl => errorEl
      | None =>
          setAttribute "role" "alert"
            (set_className "products-error-msg"
               (setAttribute "id" "products-error-msg" (createElement "p")))
      end in
    with_productsErrorMsg (Some (set_textContent message errorEl)) d.

Definition clearProductsError (d : page) : page :=
  with_productsErrorMsg None d.

Definition getSelectedProducts (productCheckboxes : list checkbox) : list string :=
  map value (filter (λ cb, checked cb = true) productCheckboxes).

(** [easeOutCubic] and [step], the two inner functions of [animateCounter],
    read as in the older file. *)
Definition easeOutCubic (t : number) : number :=
  sub (Num 1) (Math_pow (sub (Num 1) t) 3).

Definition step (finalValue duration : number) (startTime : option number)
    (timestamp : number) : option number * number * bool :=
  let startTime :=
    match startTime with
    | Some s => if js_not s then timestamp else s
    | None => timestamp
    end in
  let elapsed := sub timestamp startTime in
  let progress := Math_min (div elapsed duration) (Num 1) in
  let eased := easeOutCubic progress in
  let currentValue := Math_round (mul finalValue eased) in
  if js_lt progress (Num 1)
  then (Some startTime, currentValue, true)
  else (Some startTime, finalValue, false).

Fixpoint frames (finalValue duration : number) (startTime : option number)
    (timestamps : list number) : list number :=
  match timestamps with
  | [] => []
  | timestamp :: timestamps =>
      let '(startTime, shown, again) :=
        step finalValue duration startTime timestamp in
      shown :: if again then frames finalValue duration startTime timestamps
               else []
  end.

(** [animateCounter]: the default [duration = 1500] applies when the third
    argument is omitted ([None]). *)
Definition animateCounter (reducedMotion : bool) (finalValue : number)
    (duration : option number) (timestamps : list number) : list number :=
  let duration := default (Num (Q2Qc 1500)) duration in
  if reducedMotion then [finalValue]
  else frames finalValue duration None timestamps.

End NewMain.

(** ** What a control shows *)

(** The control is flagged invalid with exactly one message under it, or it
    is clean: not flagged, no message. *)
Definition shows (c : control) (message : option string) : Prop :=
  match message with
  | Some m =>
      ("is-invalid" ∈ classList (self c))
      ∧ attributes (self c) !! "aria-invalid" = Some "true"
      ∧ ∃ e, group c = Some [e] ∧ textContent e = m
  | None =>
      ("is-invalid" ∉ classList (self c))
      ∧ attributes (self c) !! "aria-invalid" = None
      ∧ group c = Some []
  end.

(** The control stands in a form group that holds at most one message. *)
Definition tidy (c : control) : Prop :=
  ∃ found, group c = Some found ∧ (length found ≤ 1)%nat.

(** A page on which nothing has been reported yet. *)
Definition freshControl (tag : string) : control :=
  {| self := createElement tag; group := Some [] |}.

Definition freshPage : NewMain.page :=
  {| NewMain.inputNbEmployes := freshControl "input";
     NewMain.inputTauxHoraire := freshControl "input";
     NewMain.inputHeures := freshControl "input";
     NewMain.selectFrequence := freshControl "select";
     NewMain.productGrid := true;
     NewMain.productsErrorMsg := None |}.

Definition freshOldPage : OldMain.page :=
  {| OldMain.inputNbEmployes := freshControl "input";
     OldMain.inputTauxHoraire := freshControl "input";
     OldMain.inputHeures := freshControl "input";
     OldMain.selectFrequence := freshControl "select";
     OldMain.productsError := setAttribute "hidden" "" (createElement "p") |}.

(** The form of the specification's scenario. *)
Definition scenarioForm : Form.formData :=
  {| Form.nbEmployes := Num (Q2Qc 10); Form.tauxHoraire := Num (Q2Qc 20);
     Form.heuresMensuelles := Num (Q2Qc 5); Form.frequence := Num (Q2Qc 4) |}.

(** * The calculator over exact Numbers *)

(** ** Arithmetic on exact Numbers *)

Section number_algebra.
Implicit Types a b c : number.

Lemma add_comm a b : add a b = add b a.
Proof. destruct a, b; simpl; try done. by rewrite Qcplus_comm. Qed.

Lemma add_assoc a b c : add a (add b c) = add (add a b) c.
Proof. destruct a, b, c; simpl; try done. by rewrite Qcplus_assoc. Qed.

Lemma add_0_l a : add (Num 0) a = a.
Proof. destruct a; simpl; try done. by rewrite Qcplus_0_l. Qed.

Lemma add_0_r a : add a (Num 0) = a.
Proof. by rewrite add_comm, add_0_l. Qed.

Lemma mul_comm a b : mul a b = mul b a.
Proof. destruct a, b; simpl; try done. by rewrite Qcmult_comm. Qed.

Lemma mul_assoc a b c : mul a (mul b c) = mul (mul a b) c.
Proof. destruct a, b, c; simpl; try done. by rewrite Qcmult_assoc. Qed.

Lemma mul_add_distr_r a b c : mul (add a b) c = add (mul a c) (mul b c).
Proof. destruct a, b, c; simpl; try done. by rewrite Qcmult_plus_distr_l. Qed.

Lemma mul_add_distr_l a b c : mul c (add a b) = add (mul c a) (mul c b).
Proof. by rewrite !(mul_comm c), mul_add_distr_r. Qed.

End number_algebra.

Lemma total_of_app u l1 l2 :
  total_of u (l1 ++ l2) = add (total_of u l1) (total_of u l2).
Proof.
  induction l1 as [|id l1 IH]; simpl.
  - by rewrite add_0_l.
  - by rewrite IH, add_assoc.
Qed.

(** The reducer of both implementations adds [u id * nbEmployes] per
    element, so the loop computes [acc + (Σ u) * nbEmployes]. *)
Lemma reduce_total (u : string → number) (nb : Qc) l acc :
  reduce (λ total id, add total (mul (u id) (Num nb))) acc l
  = add acc (mul (total_of u l) (Num nb)).
Proof.
  unfold reduce. revert acc. induction l as [|id l IH]; intros acc; simpl.
  - by rewrite Qcmult_0_l, add_0_r.
  - rewrite IH, mul_add_distr_r. by rewrite add_assoc.
Qed.

Lemma productSavings_eq p :
  productSavings (calculateSavings p)
  = mul (mul (total_of unitNew (articlesSelectionnes p)) (Num (nbEmployes p)))
        (Num (frequence p)).
Proof.
  unfold calculateSavings; cbv zeta.
  by rewrite (reduce_total unitNew (nbEmployes p)), add_0_l.
Qed.

(** ** The two tables *)

Lemma Z2N_nonneg z : (0 ≤ z)%Z → 0 ≤ Q2Qc (inject_Z z).
Proof.
  intros Hz. unfold Qcle; simpl. rewrite !Qred_correct.
  change 0%Q with (inject_Z 0). by rewrite <- Zle_Qle.
Qed.

(** Every entry of the table is a positive whole amount, under a key that
    [Object.prototype] does not define. *)
Lemma productSavingsConfig_lookup id n :
  productSavingsConfig !! id = Some n →
  ∃ z, n = Z2N z ∧ (0 < z)%Z ∧ inherited id = false.
Proof.
  intros H. apply elem_of_list_to_map_2 in H.
  repeat (apply elem_of_cons in H as [H|H];
          [injection H as -> ->; eexists; by repeat split|]).
  by apply elem_of_nil in H.
Qed.

Lemma unitNew_not_inherited id : inherited id = false → unitNew id = unitSavings id.
Proof.
  intros Hid. unfold unitNew, unitSavings, Get.
  destruct (productSavingsConfig !! id); [done|]. by rewrite Hid.
Qed.

Lemma unitNew_inherited id : inherited id = true → unitNew id = NaN.
Proof.
  intros Hid. unfold unitNew, Get.
  destruct (productSavingsConfig !! id) as [n|] eqn:Hn; [|by rewrite Hid].
  apply productSavingsConfig_lookup in Hn as (_ & _ & _ & ?). congruence.
Qed.

Lemma unitSavings_nonneg id : ∃ q, unitSavings id = Num q ∧ 0 ≤ q.
Proof.
  unfold unitSavings.
  destruct (productSavingsConfig !! id) as [n|] eqn:Hn; simpl.
  - apply productSavingsConfig_lookup in Hn as (z & -> & Hz & _).
    eexists; split; [done|]. apply Z2N_nonneg. lia.
  - by exists 0.
Qed.

Lemma total_of_ext (u v : string → number) l :
  Forall (λ id, u id = v id) l → total_of u l = total_of v l.
Proof. induction 1 as [|id l Hid _ IH]; simpl; [done|]. by rewrite Hid, IH. Qed.

(** On identifiers that [Object.prototype] does not define, the product
    savings of [calculateSavings] are the specification's formula. *)
Lemma productSavings_not_inherited p :
  Forall (λ id, inherited id = false) (articlesSelectionnes p) →
  productSavings (calculateSavings p)
  = mul (mul (total_of unitSavings (articlesSelectionnes p)) (Num (nbEmployes p)))
        (Num (frequence p)).
Proof.
  intros Hl. rewrite productSavings_eq.
  rewrite (total_of_ext unitNew unitSavings); [done|].
  induction Hl; constructor; auto using unitNew_not_inherited.
Qed.

(** ** Product savings *)

(** C3: the request [["toString"]], an identifier that the table does not
    hold but [Object.prototype] defines.  The specification's formula gives
    0; [calculateSavings] returns NaN, because [??] keeps the inherited
    function. *)
Theorem productSavings_inherited_key :
  let p := mkParams 10 20 5 4 ["toString"] in
  productSavingsConfig !! "toString" = None
  ∧ mul (mul (total_of unitSavings (articlesSelectionnes p)) (Num (nbEmployes p)))
        (Num (frequence p)) = Num 0
  ∧ productSavings (calculateSavings p) = NaN.
Proof.
  intros p. split; [reflexivity|]. split; number_eval.
Qed.

(** ** Degenerate and concrete requests *)



(** C9: the scenario of the specification gives 840, 760 and 1600. *)
Theorem scenario_result :
  calculateSavings
    {| nbEmployes := Q2Qc 10; tauxHoraire := Q2Qc 20;
       heuresMensuelles := Q2Qc 5; frequence := Q2Qc 4;
       articlesSelectionnes := ["tshirt"; "hoodie"] |}
  = {| adminSavings := Z2N 840; productSavings := Z2N 760;
       totalSavings := Z2N 1600 |}
  ∧ productSavingsConfig !! "tshirt" = Some (Z2N 7)
  ∧ productSavingsConfig !! "hoodie" = Some (Z2N 12).
Proof.
  split; [|split; reflexivity].
  unfold calculateSavings. f_equal; number_eval.
Qed.

(** The other two scenarios of the specification, and the first one under
    the older implementation. *)
Example scenario_zero :
  calculateSavings (mkParams 1 0 0 1 [])
  = {| adminSavings := Num 0; productSavings := Num 0; totalSavings := Num 0 |}.
Proof. unfold calculateSavings. f_equal; number_eval. Qed.

Example scenario_unknown_id :
  productSavingsConfig !! "unknown-id" = None
  ∧ productSavings (calculateSavings (mkParams 2 0 0 1 ["tshirt"; "unknown-id"]))
    = Z2N 14.
Proof. split; [reflexivity|number_eval]. Qed.

(** ** One more product *)

Lemma total_of_cons u id l : total_of u (id :: l) = add (u id) (total_of u l).
Proof. reflexivity. Qed.

Lemma total_of_unitSavings_nonneg l :
  ∃ q, total_of unitSavings l = Num q ∧ 0 ≤ q.
Proof.
  induction l as [|id l (q & Hq & Hq0)].
  - by exists 0.
  - destruct (unitSavings_nonneg id) as (u & Hu & Hu0).
    exists (u + q). rewrite total_of_cons, Hu, Hq. split; [done|].
    by apply Qcplus_nonneg_nonneg.
Qed.

(** Among identifiers that [Object.prototype] does not define, selecting one
    more never lowers the product savings. *)
Lemma productSavings_monotone (p : params) (id : string) :
  0 ≤ nbEmployes p → 0 ≤ frequence p →
  Forall (λ id, inherited id = false) (articlesSelectionnes p) →
  inherited id = false →
  number_ge (productSavings (calculateSavings (set_articles (articlesSelectionnes p ++ [id]) p)))
     (productSavings (calculateSavings p)).
Proof.
  intros He Hf Hl Hid.
  rewrite !productSavings_not_inherited; [|done|].
  2:{ cbn [set_articles articlesSelectionnes]. apply Forall_app. by repeat constructor. }
  cbn [set_articles nbEmployes frequence articlesSelectionnes].
  rewrite total_of_app.
  destruct (total_of_unitSavings_nonneg (articlesSelectionnes p)) as (q & -> & Hq).
  destruct (total_of_unitSavings_nonneg [id]) as (u & -> & Hu).
  simpl. repeat apply Qcmult_le_compat_r; try done.
  rewrite <- (Qcplus_0_r q) at 1. by apply Qcplus_le_mono_l.
Qed.

(** C10: the request [["tshirt"]] extended with ["toString"], an identifier
    that the table does not hold but [Object.prototype] defines.  The product
    savings go from 280 to NaN, which is not greater than or equal to 280. *)
Theorem extended_by_inherited_key :
  let p := mkParams 10 20 5 4 ["tshirt"] in
  let p' := set_articles (articlesSelectionnes p ++ ["toString"]) p in
  (0 ≤ nbEmployes p ∧ 0 ≤ frequence p)
  ∧ productSavings (calculateSavings p) = Z2N 280
  ∧ productSavings (calculateSavings p') = NaN
  ∧ ¬ number_ge (productSavings (calculateSavings p')) (productSavings (calculateSavings p)).
Proof.
  intros p p'. split; [by split|]. split; [number_eval|].
  assert (productSavings (calculateSavings p') = NaN) as -> by number_eval.
  split; [done|]. intros [].
Qed.

(** * The calculators in binary64 *)


(** ** Whole numbers below 2^53 *)

Lemma digits_pos p : (0 < B64.digits p)%Z.
Proof. unfold B64.digits. lia. Qed.

Lemma digits_size p : digits2_pos p = Pos.size p.
Proof. induction p; simpl; congruence. Qed.

Lemma digits_bounds p : (2 ^ (B64.digits p - 1) ≤ Zpos p < 2 ^ B64.digits p)%Z.
Proof.
  unfold B64.digits. rewrite digits_size.
  pose proof (Pos.size_gt p) as Hgt. pose proof (Pos.size_le p) as Hle.
  apply Pos2Z.pos_lt_pos in Hgt. apply Pos2Z.pos_le_pos in Hle.
  rewrite Pos2Z.inj_pow in Hgt, Hle.
  change (Z.pos p~0) with (2 * Z.pos p)%Z in Hle.
  replace (Z.pos (Pos.size p)) with (Z.succ (Z.pos (Pos.size p) - 1))%Z in Hle at 1 by lia.
  rewrite Z.pow_succ_r in Hle by lia. lia.
Qed.

Lemma digits_unique p d :
  (2 ^ (d - 1) ≤ Zpos p < 2 ^ d)%Z → B64.digits p = d.
Proof.
  intros [Hl Hu]. pose proof (digits_bounds p) as [Hl' Hu'].
  pose proof (digits_pos p).
  assert (0 < d)%Z.
  { destruct d as [|d|d]; [simpl in Hu; lia|lia|].
    rewrite Z.pow_neg_r in Hu by lia. lia. }
  destruct (Z.lt_trichotomy (B64.digits p) d) as [Hlt|[->|Hlt]]; [|done|].
  - assert (2 ^ B64.digits p ≤ 2 ^ (d - 1))%Z by (apply Z.pow_le_mono_r; lia). lia.
  - assert (2 ^ d ≤ 2 ^ (B64.digits p - 1))%Z by (apply Z.pow_le_mono_r; lia). lia.
Qed.

Lemma digits_le p d : (0 ≤ d)%Z → (Zpos p < 2 ^ d)%Z → (B64.digits p ≤ d)%Z.
Proof.
  intros Hd Hp. pose proof (digits_bounds p) as [Hl _].
  destruct (Z_le_gt_dec (B64.digits p) d) as [|Hgt]; [done|].
  assert (2 ^ d ≤ 2 ^ (B64.digits p - 1))%Z by (apply Z.pow_le_mono_r; lia). lia.
Qed.

Lemma digits_mono p q : (Zpos p ≤ Zpos q)%Z → (B64.digits p ≤ B64.digits q)%Z.
Proof.
  intros Hpq. pose proof (digits_bounds q) as [_ Hu]. pose proof (digits_pos q).
  apply digits_le; lia.
Qed.

Lemma digits_mul p q : (B64.digits p + B64.digits q - 1 ≤ B64.digits (p * q))%Z.
Proof.
  pose proof (digits_bounds p) as [Hp _]. pose proof (digits_bounds q) as [Hq _].
  pose proof (digits_bounds (p * q)) as [_ Hpq].
  pose proof (digits_pos p). pose proof (digits_pos q). pose proof (digits_pos (p * q)).
  destruct (Z_le_gt_dec (B64.digits p + B64.digits q - 1) (B64.digits (p * q)))
    as [|Hgt]; [done|].
  assert (2 ^ B64.digits (p * q) ≤ 2 ^ (B64.digits p - 1 + (B64.digits q - 1)))%Z
    as Hle by (apply Z.pow_le_mono_r; lia).
  rewrite Z.pow_add_r in Hle by lia. rewrite Pos2Z.inj_mul in Hpq.
  assert (0 < 2 ^ (B64.digits p - 1))%Z by (apply Z.pow_pos_nonneg; lia).
  assert (0 < 2 ^ (B64.digits q - 1))%Z by (apply Z.pow_pos_nonneg; lia).
  nia.
Qed.

Lemma shiftl_value p k : Zpos (Pos.shiftl p k) = (Zpos p * 2 ^ Z.of_N k)%Z.
Proof.
  destruct k as [|k]; [change (Pos.shiftl p 0) with p; lia|].
  change (Pos.shiftl p (Npos k)) with (Pos.iter xO p k).
  change (Z.of_N (Npos k)) with (Zpos k).
  induction k using Pos.peano_ind.
  - change (Pos.iter xO p 1) with (p~0)%positive. lia.
  - rewrite (Pos.iter_succ k _ xO). rewrite Pos2Z.inj_succ, Z.pow_succ_r by lia.
    change (Z.pos (Pos.iter xO p k)~0) with (2 * Z.pos (Pos.iter xO p k))%Z.
    rewrite IHk. ring.
Qed.

Lemma digits_shiftl p k : B64.digits (Pos.shiftl p k) = (B64.digits p + Z.of_N k)%Z.
Proof.
  apply digits_unique. rewrite shiftl_value.
  pose proof (digits_bounds p) as [Hl Hu]. pose proof (digits_pos p).
  replace (B64.digits p + Z.of_N k - 1)%Z with ((B64.digits p - 1) + Z.of_N k)%Z by lia.
  rewrite !Z.pow_add_r by lia.
  assert (0 < 2 ^ Z.of_N k)%Z by (apply Z.pow_pos_nonneg; lia). nia.
Qed.

Lemma shiftl_shiftl p j k : Pos.shiftl (Pos.shiftl p j) k = Pos.shiftl p (j + k).
Proof.
  apply Pos2Z.inj. rewrite !shiftl_value, N2Z.inj_add, Z.pow_add_r by lia. ring.
Qed.

Lemma shiftl_mul p q j k :
  (Pos.shiftl p j * Pos.shiftl q k)%positive = Pos.shiftl (p * q) (j + k).
Proof.
  apply Pos2Z.inj.
  rewrite Pos2Z.inj_mul, !shiftl_value, Pos2Z.inj_mul, N2Z.inj_add, Z.pow_add_r by lia.
  ring.
Qed.

Lemma shiftl_add p q k :
  (Pos.shiftl p k + Pos.shiftl q k)%positive = Pos.shiftl (p + q) k.
Proof.
  apply Pos2Z.inj. rewrite Pos2Z.inj_add, !shiftl_value, Pos2Z.inj_add. ring.
Qed.

Lemma iter_pos_iter {A} (f : A → A) n x : SpecFloat.iter_pos f n x = Pos.iter f x n.
Proof.
  revert x. induction n as [n IH|n IH|]; intros x; simpl; [|by rewrite !IH|done].
  rewrite !IH. by rewrite <- !Pos.iter_swap.
Qed.

(** Shifting right a record whose dropped bits are all zero loses nothing. *)
Lemma shr_exact j p :
  SpecFloat.iter_pos shr_1 j (Build_shr_record (Zpos (Pos.iter xO p j)) false false)
  = Build_shr_record (Zpos p) false false.
Proof.
  rewrite iter_pos_iter. induction j using Pos.peano_ind.
  - reflexivity.
  - rewrite (Pos.iter_succ j _ xO), (Pos.iter_succ j _ shr_1), <- (Pos.iter_swap j _ shr_1).
    exact IHj.
Qed.

Lemma fexp_digits d : (0 < d)%Z → fexp prec emax d = (d - 53)%Z.
Proof. unfold fexp, emin, prec, emax. lia. Qed.

(** Rounding to nearest an exact value [p × 2^k × 2^-k = p] with at most 53
    significant bits returns [p], in its canonical representation. *)
Lemma round_exact s p k :
  (B64.digits p ≤ 53)%Z → (53 - B64.digits p ≤ Z.of_N k)%Z →
  binary_round_aux prec emax s (Zpos (Pos.shiftl p k)) (- Z.of_N k) loc_Exact
  = B64.whole_pos s p.
Proof.
  intros Hd Hk. pose proof (digits_pos p) as H0.
  set (k' := Z.to_N (53 - B64.digits p)).
  assert (Hfinal : ∀ e, e = (B64.digits p - 53)%Z →
    (let '(mrs'', e'') := shr_fexp prec emax (Zpos (Pos.shiftl p k')) e loc_Exact in
     match shr_m mrs'' with
     | Z0 => S754_zero s
     | Zpos m => if Z.leb e'' (Z.sub emax prec) then S754_finite s m e'' else S754_infinity s
     | _ => S754_nan
     end) = B64.whole_pos s p).
  { intros e ->. unfold shr_fexp, Zdigits2. fold (B64.digits (Pos.shiftl p k')).
    rewrite digits_shiftl.
    replace (B64.digits p + Z.of_N k' + (B64.digits p - 53))%Z with (B64.digits p) by lia.
    rewrite fexp_digits, Z.sub_diag by done. simpl.
    unfold B64.whole_pos. fold k'.
    destruct (Z.leb_spec (B64.digits p - 53) (emax - prec)) as [|Hlt]; [done|].
    unfold emax, prec in Hlt. lia. }
  unfold binary_round_aux. unfold shr_fexp at 1. unfold Zdigits2.
  fold (B64.digits (Pos.shiftl p k)). rewrite digits_shiftl.
  replace (B64.digits p + Z.of_N k + - Z.of_N k)%Z with (B64.digits p) by lia.
  rewrite fexp_digits by done.
  destruct (B64.digits p - 53 - - Z.of_N k)%Z as [|j|j] eqn:Hn; [| |lia].
  - simpl shr. cbv beta iota. simpl shr_m. simpl loc_of_shr_record. simpl round_nearest_even.
    assert (k = k') as -> by lia. apply Hfinal. lia.
  - unfold shr. assert (k = k' + Npos j)%N as -> by lia.
    rewrite <- shiftl_shiftl. change (Pos.shiftl ?q (Npos j)) with (Pos.iter xO q j).
    change (shr_record_of_loc ?m loc_Exact) with (Build_shr_record m false false).
    rewrite shr_exact. cbv beta iota. simpl shr_m. simpl loc_of_shr_record. simpl round_nearest_even.
    apply Hfinal. lia.
Qed.

Lemma shl_align_fst m e e' :
  (e' ≤ e)%Z → shl_align m e e' = (Pos.shiftl m (Z.to_N (e - e')), e').
Proof.
  intros He. unfold shl_align.
  destruct (e' - e)%Z as [|d|d] eqn:Hd; [|lia|].
  - assert (e' = e) as -> by lia. by rewrite Z.sub_diag.
  - replace (Z.to_N (e - e')) with (Npos d) by lia. reflexivity.
Qed.

Lemma shl_align_id m e e' : (e ≤ e')%Z → shl_align m e e' = (m, e).
Proof. intros He. unfold shl_align. destruct (e' - e)%Z eqn:Hd; [done|done|lia]. Qed.

Lemma normalize_whole s p :
  (Zpos p < 2 ^ 53)%Z → binary_round prec emax s p 0 = B64.whole_pos s p.
Proof.
  intros Hp. pose proof (digits_le p 53 ltac:(lia) Hp) as Hd.
  pose proof (digits_pos p) as H0.
  unfold binary_round. fold (B64.digits p).
  rewrite Z.add_0_r, fexp_digits by done.
  rewrite shl_align_fst by lia.
  replace (B64.digits p - 53)%Z with (- Z.of_N (Z.to_N (0 - (B64.digits p - 53))))%Z at 2 by lia.
  apply round_exact; lia.
Qed.

Lemma valid_whole_SF n : (n < 2 ^ 53)%N → valid_binary (B64.whole_SF n) = true.
Proof.
  intros Hn. destruct n as [|p]; [done|].
  assert (Zpos p < 2 ^ 53)%Z as Hp by lia.
  pose proof (digits_le p 53 ltac:(lia) Hp) as Hd. pose proof (digits_pos p) as H0.
  unfold B64.whole_SF, B64.whole_pos, SpecFloat.valid_binary, bounded, canonical_mantissa.
  fold (B64.digits (Pos.shiftl p (Z.to_N (53 - B64.digits p)))).
  rewrite digits_shiftl.
  replace (B64.digits p + Z.of_N (Z.to_N (53 - B64.digits p)) + (B64.digits p - 53))%Z
    with (B64.digits p) by lia.
  rewrite fexp_digits by done. rewrite Z.eqb_refl. simpl.
  apply Z.leb_le. unfold emax, prec. lia.
Qed.

Lemma Prim2SF_of_N n : (n < 2 ^ 53)%N → Prim2SF (B64.of_N n) = B64.whole_SF n.
Proof. intros Hn. apply Prim2SF_SF2Prim, valid_whole_SF, Hn. Qed.

(** [of_N n] is the binary64 value of the whole number [n]: what rounding
    [n × 2^0] to nearest gives, which is [n] itself. *)
Lemma of_N_normalize n :
  (n < 2 ^ 53)%N →
  Prim2SF (B64.of_N n) = binary_normalize prec emax (Z.of_N n) 0 false.
Proof.
  intros Hn. rewrite Prim2SF_of_N by done. destruct n as [|p]; [done|].
  symmetry. apply normalize_whole. lia.
Qed.

Example of_N_values :
  B64.of_N 0 = 0%float ∧ B64.of_N 1 = 1%float ∧ B64.of_N 7 = 7%float
  ∧ B64.of_N 760 = 760%float
  ∧ B64.of_N (2 ^ 53 - 1) = 9007199254740991%float.
Proof. repeat split. Qed.

Lemma SFmul_whole a b :
  (a * b < 2 ^ 53)%N →
  SF64mul (B64.whole_SF a) (B64.whole_SF b) = B64.whole_SF (a * b).
Proof.
  intros Hab. destruct a as [|p], b as [|q]; try done.
  assert (Zpos (p * q) < 2 ^ 53)%Z as Hpq by lia.
  assert (Zpos p < 2 ^ 53)%Z as Hp by nia.
  assert (Zpos q < 2 ^ 53)%Z as Hq by nia.
  pose proof (digits_le _ 53 ltac:(lia) Hpq). pose proof (digits_le _ 53 ltac:(lia) Hp).
  pose proof (digits_le _ 53 ltac:(lia) Hq). pose proof (digits_mul p q).
  pose proof (digits_pos p). pose proof (digits_pos q).
  change (N.pos p * N.pos q)%N with (N.pos (p * q)).
  unfold SF64mul, B64.whole_SF. unfold B64.whole_pos at 1 2. unfold SFmul.
  rewrite shiftl_mul. simpl xorb.
  replace (B64.digits p - 53 + (B64.digits q - 53))%Z
    with (- Z.of_N (Z.to_N (53 - B64.digits p) + Z.to_N (53 - B64.digits q)))%Z by lia.
  apply round_exact; lia.
Qed.

Lemma SFadd_whole a b :
  (a + b < 2 ^ 53)%N →
  SF64add (B64.whole_SF a) (B64.whole_SF b) = B64.whole_SF (a + b).
Proof.
  intros Hab. destruct a as [|p], b as [|q]; try done.
  assert (Zpos (p + q) < 2 ^ 53)%Z as Hpq by lia.
  assert (Zpos p < 2 ^ 53)%Z as Hp by lia.
  assert (Zpos q < 2 ^ 53)%Z as Hq by lia.
  pose proof (digits_le _ 53 ltac:(lia) Hpq). pose proof (digits_le _ 53 ltac:(lia) Hp).
  pose proof (digits_le _ 53 ltac:(lia) Hq).
  pose proof (digits_mono p (p + q) ltac:(lia)). pose proof (digits_mono q (p + q) ltac:(lia)).
  pose proof (digits_pos p). pose proof (digits_pos q). pose proof (digits_pos (p + q)).
  change (N.pos p + N.pos q)%N with (N.pos (p + q)).
  unfold SF64add, B64.whole_SF. unfold B64.whole_pos at 1 2. unfold SFadd.
  set (ez := Z.min (B64.digits p - 53) (B64.digits q - 53)).
  rewrite !shl_align_fst by lia. cbn [fst cond_Zopp].
  rewrite !shiftl_shiftl.
  replace (Z.to_N (53 - B64.digits p) + Z.to_N (B64.digits p - 53 - ez))%N
    with (Z.to_N (- ez)) by lia.
  replace (Z.to_N (53 - B64.digits q) + Z.to_N (B64.digits q - 53 - ez))%N
    with (Z.to_N (- ez)) by lia.
  rewrite <- Pos2Z.inj_add, shiftl_add. unfold binary_normalize, binary_round.
  fold (B64.digits (Pos.shiftl (p + q) (Z.to_N (- ez)))). rewrite digits_shiftl.
  rewrite fexp_digits by lia.
  rewrite shl_align_id by lia.
  replace ez with (- Z.of_N (Z.to_N (- ez)))%Z at 2 by lia.
  apply round_exact; lia.
Qed.

Lemma of_N_mul a b :
  (a < 2 ^ 53)%N → (b < 2 ^ 53)%N → (a * b < 2 ^ 53)%N →
  (B64.of_N a * B64.of_N b)%float = B64.of_N (a * b).
Proof.
  intros Ha Hb Hab. apply Prim2SF_inj.
  by rewrite mul_spec, !Prim2SF_of_N, SFmul_whole.
Qed.

Lemma of_N_add a b :
  (a + b < 2 ^ 53)%N → (B64.of_N a + B64.of_N b)%float = B64.of_N (a + b).
Proof.
  intros Hab. apply Prim2SF_inj.
  rewrite add_spec, !Prim2SF_of_N, SFadd_whole by lia. done.
Qed.

(** [Math.round] leaves a whole number alone. *)
Lemma Math_round_of_N n : (n < 2 ^ 53)%N → B64.Math_round (B64.of_N n) = B64.of_N n.
Proof.
  intros Hn. unfold B64.Math_round. rewrite Prim2SF_of_N by done.
  destruct n as [|p]; [done|]. cbn [B64.whole_SF B64.whole_pos].
  assert (Zpos p < 2 ^ 53)%Z as Hp by lia.
  pose proof (digits_le p 53 ltac:(lia) Hp) as Hd. pose proof (digits_pos p) as H0.
  destruct (Z.leb_spec 0 (B64.digits p - 53)) as [|He]; [done|].
  cbn [cond_Zopp]. rewrite shiftl_value, Z.shiftr_div_pow2 by lia.
  replace (Z.of_N (Z.to_N (53 - B64.digits p))) with (- (B64.digits p - 53))%Z by lia.
  set (j := (- (B64.digits p - 53))%Z).
  assert (0 < 2 ^ (j - 1))%Z by (apply Z.pow_pos_nonneg; lia).
  assert (2 ^ j = 2 * 2 ^ (j - 1))%Z as Hj.
  { replace j with (Z.succ (j - 1)) at 1 by lia. apply Z.pow_succ_r. lia. }
  rewrite Z.div_add_l by lia. rewrite Z.div_small by lia. rewrite Z.add_0_r.
  unfold binary_normalize. by rewrite normalize_whole.
Qed.

(** ** NaN is absorbing *)

Lemma add_nan_l x : (nan + x)%float = nan.
Proof. apply Prim2SF_inj. by rewrite add_spec. Qed.

Lemma add_nan_r x : (x + nan)%float = nan.
Proof.
  apply Prim2SF_inj. rewrite add_spec.
  change (Prim2SF nan) with S754_nan. by destruct (Prim2SF x).
Qed.

Lemma mul_nan_l x : (nan * x)%float = nan.
Proof. apply Prim2SF_inj. by rewrite mul_spec. Qed.

Lemma mul_nan_r x : (x * nan)%float = nan.
Proof.
  apply Prim2SF_inj. rewrite mul_spec.
  change (Prim2SF nan) with S754_nan. by destruct (Prim2SF x).
Qed.

(** ** Sign *)

Lemma leb_0_nonneg x : (0 <=? x)%float = true → B64.nonneg_SF (Prim2SF x).
Proof.
  rewrite leb_spec. change (Prim2SF 0) with (S754_zero false).
  by destruct (Prim2SF x) as [s|[]| |[] m e].
Qed.

Lemma nonneg_leb_0 x : B64.nonneg_SF (Prim2SF x) → (0 <=? x)%float = true.
Proof.
  rewrite leb_spec. change (Prim2SF 0) with (S754_zero false).
  by destruct (Prim2SF x) as [s|[]| |[] m e].
Qed.

Lemma nonneg_eqb x : B64.nonneg_SF (Prim2SF x) → (x =? x)%float = true.
Proof.
  rewrite FloatAxioms.eqb_spec. unfold SFeqb.
  destruct (Prim2SF x) as [s|[]| |[] m e]; try done.
  intros _. simpl. by rewrite Z.compare_refl, Pos.compare_cont_refl.
Qed.

Lemma ltb_infinity_bounded x :
  (x <? infinity)%float = true →
  B64.bounded_SF (Prim2SF x) ∨ Prim2SF x = S754_infinity true.
Proof.
  rewrite ltb_spec. change (Prim2SF infinity) with (S754_infinity false).
  destruct (Prim2SF x) as [s|[]| |s m e]; try done; intros _;
    first [by left|by right].
Qed.

Lemma nonneg_bounded x :
  (0 <=? x)%float = true → (x <? infinity)%float = true →
  B64.nonneg_SF (Prim2SF x) ∧ B64.bounded_SF (Prim2SF x).
Proof.
  intros H0%leb_0_nonneg [H1|H1]%ltb_infinity_bounded; [done|].
  by rewrite H1 in H0.
Qed.

Lemma positive_finite x :
  (0 <? x)%float = true → (x <? infinity)%float = true →
  ∃ m e, Prim2SF x = S754_finite false m e.
Proof.
  rewrite !ltb_spec. change (Prim2SF 0) with (S754_zero false).
  change (Prim2SF infinity) with (S754_infinity false).
  destruct (Prim2SF x) as [s|[]| |[] m e]; try done. by eexists _, _.
Qed.

Lemma shr_1_nonneg mrs : (0 ≤ shr_m mrs)%Z → (0 ≤ shr_m (shr_1 mrs))%Z.
Proof. destruct mrs as [[|[p|p|]|p] r s]; simpl; lia. Qed.

Lemma iter_shr_1_nonneg n mrs :
  (0 ≤ shr_m mrs)%Z → (0 ≤ shr_m (SpecFloat.iter_pos shr_1 n mrs))%Z.
Proof.
  revert mrs. induction n as [n IH|n IH|]; intros mrs H; simpl.
  - by apply IH, IH, shr_1_nonneg.
  - by apply IH, IH.
  - by apply shr_1_nonneg.
Qed.

Lemma shr_fexp_nonneg m e l :
  (0 ≤ m)%Z → (0 ≤ shr_m (shr_fexp prec emax m e l).1)%Z.
Proof.
  intros Hm. unfold shr_fexp, shr.
  assert (0 ≤ shr_m (shr_record_of_loc m l))%Z as H0.
  { by destruct l as [|[]]. }
  destruct (_ - e)%Z; simpl; [done| |done]. by apply iter_shr_1_nonneg.
Qed.

Lemma round_nearest_even_nonneg m l : (0 ≤ m)%Z → (0 ≤ round_nearest_even m l)%Z.
Proof. intros Hm. destruct l as [|[]]; simpl; try lia. destruct (Z.even m); lia. Qed.

(** Rounding a positive mantissa keeps the sign: the result is a zero, a
    finite number or an infinity of that sign, never NaN. *)
Lemma binary_round_aux_sign s m e :
  match binary_round_aux prec emax s (Zpos m) e loc_Exact with
  | S754_zero s' | S754_infinity s' | S754_finite s' _ _ => s' = s
  | S754_nan => False
  end.
Proof.
  unfold binary_round_aux.
  pose proof (shr_fexp_nonneg (Zpos m) e loc_Exact ltac:(lia)) as H1.
  destruct (shr_fexp prec emax (Z.pos m) e loc_Exact) as [mrs' e']. simpl in H1.
  pose proof (shr_fexp_nonneg
                (round_nearest_even (shr_m mrs') (loc_of_shr_record mrs')) e' loc_Exact
                (round_nearest_even_nonneg _ _ H1)) as H2.
  destruct (shr_fexp prec emax _ e' loc_Exact) as [mrs'' e'']. simpl in H2.
  destruct (shr_m mrs'') as [|q|q]; [done| |lia].
  by destruct (e'' <=? emax - prec)%Z.
Qed.

(** The product of two finite Numbers that are not below 0 is not below 0,
    and neither is the product of a Number that is not below 0 by a positive
    finite one, nor the sum of two Numbers that are not below 0: no NaN. *)
Lemma SFmul_nonneg_bounded a b :
  B64.nonneg_SF a → B64.bounded_SF a → B64.nonneg_SF b → B64.bounded_SF b →
  B64.nonneg_SF (SF64mul a b).
Proof.
  destruct a as [sa|[]| |[] ma ea], b as [sb|[]| |[] mb eb]; try done.
  intros _ _ _ _. unfold SF64mul, SFmul. simpl xorb.
  pose proof (binary_round_aux_sign false (ma * mb) (ea + eb)) as H.
  by destruct (binary_round_aux _ _ _ _ _ _) as [?|?| |? ? ?]; subst.
Qed.

Lemma SFmul_nonneg_finite a m e :
  B64.nonneg_SF a → B64.nonneg_SF (SF64mul a (S754_finite false m e)).
Proof.
  destruct a as [sa|[]| |[] ma ea]; try done.
  intros _. unfold SF64mul, SFmul. simpl xorb.
  pose proof (binary_round_aux_sign false (ma * m) (ea + e)) as H.
  by destruct (binary_round_aux _ _ _ _ _ _) as [?|?| |? ? ?]; subst.
Qed.

Lemma SFadd_nonneg a b :
  B64.nonneg_SF a → B64.nonneg_SF b → B64.nonneg_SF (SF64add a b).
Proof.
  destruct a as [[]|[]| |[] ma ea], b as [[]|[]| |[] mb eb]; try done.
  intros _ _. unfold SF64add, SFadd. cbn [cond_Zopp].
  rewrite <- Pos2Z.inj_add. unfold binary_normalize, binary_round.
  destruct (shl_align _ _ _) as [mz ez].
  pose proof (binary_round_aux_sign false mz ez) as H.
  by destruct (binary_round_aux _ _ _ _ _ _) as [?|?| |? ? ?]; subst.
Qed.

Lemma nonneg_whole_SF n : B64.nonneg_SF (B64.whole_SF n) ∧ B64.bounded_SF (B64.whole_SF n).
Proof. by destruct n. Qed.

(** [Math.round] of a Number that is not below 0 is not below 0. *)
Lemma Math_round_nonneg x :
  B64.nonneg_SF (Prim2SF x) → B64.nonneg_SF (Prim2SF (B64.Math_round x)).
Proof.
  intros Hx. unfold B64.Math_round. pose proof (Prim2SF_valid x) as Hv.
  destruct (Prim2SF x) as [s|[]| |[] m e] eqn:Hsf; try done;
    try by rewrite Hsf.
  destruct (Z.leb_spec 0 e) as [|He]; [by rewrite Hsf|].
  cbn [cond_Zopp].
  assert (Zpos m < 2 ^ 53)%Z as Hm.
  { unfold SpecFloat.valid_binary, bounded, canonical_mantissa in Hv.
    apply andb_prop in Hv as [Hc _]. apply Z.eqb_eq in Hc.
    fold (B64.digits m) in Hc. pose proof (digits_bounds m) as [_ Hu].
    pose proof (digits_pos m).
    assert (B64.digits m ≤ 53)%Z.
    { unfold fexp, emin, prec, emax in Hc. lia. }
    eapply Z.lt_le_trans; [exact Hu|]. apply Z.pow_le_mono_r; lia. }
  set (n := Z.shiftr (Z.pos m + 2 ^ (- e - 1)) (- e)).
  assert (0 ≤ n < 2 ^ 53)%Z as Hn.
  { subst n. rewrite Z.shiftr_div_pow2 by lia.
    assert (0 < 2 ^ (- e - 1))%Z by (apply Z.pow_pos_nonneg; lia).
    assert (2 ^ (- e) = 2 * 2 ^ (- e - 1))%Z as Hp.
    { replace (- e)%Z with (Z.succ (- e - 1)) at 1 by lia. apply Z.pow_succ_r. lia. }
    split; [apply Z.div_pos; lia|].
    apply Z.div_lt_upper_bound; [lia|]. nia. }
  replace (binary_normalize prec emax n 0 false)
    with (B64.whole_SF (Z.to_N n)).
  - rewrite Prim2SF_SF2Prim by (apply valid_whole_SF; lia).
    apply nonneg_whole_SF.
  - destruct n as [|q|q]; [done| |lia].
    symmetry. apply normalize_whole. lia.
Qed.

(** ** The tables *)

Lemma B64_economieUnitaire_same : B64.economieUnitaire = B64.productSavingsConfig.
Proof. reflexivity. Qed.

Lemma B64_config_units : B64.productSavingsConfig = B64.of_N <$> B64.units.
Proof. unfold B64.units. rewrite <- list_to_map_fmap. reflexivity. Qed.

Lemma B64_units_lookup id u :
  B64.units !! id = Some u → (0 < u ≤ 50)%N ∧ inherited id = false.
Proof.
  intros H. apply elem_of_list_to_map_2 in H.
  repeat (apply elem_of_cons in H as [H|H];
          [injection H as -> ->; split; [lia|reflexivity]|]).
  by apply elem_of_nil in H.
Qed.

Lemma B64_unitNew_not_inherited id :
  inherited id = false →
  B64.unitNew id = B64.of_N (default 0%N (B64.units !! id)).
Proof.
  intros Hid. unfold B64.unitNew, B64.Get.
  rewrite B64_config_units, lookup_fmap.
  destruct (B64.units !! id); simpl; [done|]. by rewrite Hid.
Qed.

Lemma B64_unitNew_inherited id : inherited id = true → B64.unitNew id = nan.
Proof.
  intros Hid. unfold B64.unitNew, B64.Get.
  rewrite B64_config_units, lookup_fmap.
  destruct (B64.units !! id) as [u|] eqn:Hu; simpl; [|by rewrite Hid].
  apply B64_units_lookup in Hu as [_ ?]. congruence.
Qed.

(** [||] and [??] pick the same amount for every identifier: no entry of the
    table is [0] or NaN, and what [Object.prototype] supplies is truthy. *)
Lemma B64_unitOld_unitNew id : B64.unitOld id = B64.unitNew id.
Proof.
  unfold B64.unitOld, B64.unitNew, B64.Get, B64.logical_or.
  rewrite B64_economieUnitaire_same.
  destruct (B64.productSavingsConfig !! id) as [x|] eqn:Hx.
  - apply elem_of_list_to_map_2 in Hx.
    repeat (apply elem_of_cons in Hx as [Hx|Hx]; [by injection Hx as -> ->|]).
    by apply elem_of_nil in Hx.
  - by destruct (inherited id).
Qed.

(** ** The loop *)

Lemma B64_productSavings_eq p :
  B64.productSavings (B64.calculateSavings p)
  = (B64.running B64.unitNew (B64.nbEmployes p) 0 (B64.articlesSelectionnes p)
     * B64.frequence p)%float.
Proof. reflexivity. Qed.

Lemma B64_running_ext (u v : string → float) nb acc l :
  (∀ id, u id = v id) → B64.running u nb acc l = B64.running v nb acc l.
Proof.
  intros Huv. unfold B64.running. revert acc.
  induction l as [|id l IH]; intros acc; simpl; [done|]. by rewrite Huv, IH.
Qed.

Lemma B64_running_app u nb acc l1 l2 :
  B64.running u nb acc (l1 ++ l2) = B64.running u nb (B64.running u nb acc l1) l2.
Proof. apply fold_left_app. Qed.

Lemma B64_calculateSavings_eq p :
  let admin := (B64.heuresMensuelles p * B64.tauxHoraire p * 12 * 0.70)%float in
  let products :=
    (B64.running B64.unitNew (B64.nbEmployes p) 0 (B64.articlesSelectionnes p)
     * B64.frequence p)%float in
  B64.calculateSavings p
  = {| B64.adminSavings := admin; B64.productSavings := products;
       B64.totalSavings := (admin + products)%float |}.
Proof. reflexivity. Qed.

Lemma B64_calculerEconomies_eq p :
  B64.calculerEconomies p
  = {| B64.economiesAdmin :=
         B64.Math_round (B64.adminSavings (B64.calculateSavings p));
       B64.economiesProduits :=
         B64.Math_round (B64.productSavings (B64.calculateSavings p));
       B64.totalEconomies :=
         B64.Math_round (B64.totalSavings (B64.calculateSavings p)) |}.
Proof.
  pose proof (B64_running_ext B64.unitOld B64.unitNew (B64.nbEmployes p) 0%float
                (B64.articlesSelectionnes p) B64_unitOld_unitNew) as Hloop.
  unfold B64.calculerEconomies, B64.calculateSavings, reduce; cbv zeta.
  cbn [B64.adminSavings B64.productSavings B64.totalSavings].
  unfold B64.running, B64.unitOld, B64.unitNew in Hloop. by rewrite Hloop.
Qed.

Lemma B64_running_nan u nb l : B64.running u nb nan l = nan.
Proof.
  unfold B64.running. induction l as [|id l IH]; simpl; [done|].
  by rewrite add_nan_l.
Qed.

Lemma B64_running_inherited nb l acc id :
  id ∈ l → inherited id = true → B64.running B64.unitNew nb acc l = nan.
Proof.
  intros Hin Hid. revert acc. induction l as [|id' l IH]; intros acc.
  - by apply elem_of_nil in Hin.
  - apply elem_of_cons in Hin as [<-|Hin].
    + change (B64.running B64.unitNew nb acc (id :: l))
        with (B64.running B64.unitNew nb (acc + B64.unitNew id * nb)%float l).
      by rewrite B64_unitNew_inherited, mul_nan_l, add_nan_r, B64_running_nan.
    + apply (IH Hin).
Qed.

Lemma B64_unitSum_app l1 l2 :
  B64.unitSum (l1 ++ l2) = (B64.unitSum l1 + B64.unitSum l2)%N.
Proof. induction l1 as [|id l1 IH]; simpl; [done|]. rewrite IH. lia. Qed.

Lemma B64_unitSum_Permutation l l' : l ≡ₚ l' → B64.unitSum l = B64.unitSum l'.
Proof. induction 1; simpl; lia. Qed.

Lemma B64_unit_le id : (default 0 (B64.units !! id) ≤ 50)%N.
Proof.
  destruct (B64.units !! id) as [u|] eqn:Hu; simpl; [|lia].
  apply B64_units_lookup in Hu. lia.
Qed.

(** On whole numbers the loop is exact as long as the running total stays
    below 2^53. *)
Lemma B64_running_whole n l acc :
  Forall (λ id, inherited id = false) l →
  (n < 2 ^ 53)%N → (acc + B64.unitSum l * n < 2 ^ 53)%N →
  B64.running B64.unitNew (B64.of_N n) (B64.of_N acc) l
  = B64.of_N (acc + B64.unitSum l * n).
Proof.
  intros Hl Hn. revert acc. induction Hl as [|id l Hid _ IH]; intros acc Hacc.
  - simpl. f_equal. lia.
  - change (B64.running B64.unitNew (B64.of_N n) (B64.of_N acc) (id :: l))
      with (B64.running B64.unitNew (B64.of_N n)
              (B64.of_N acc + B64.unitNew id * B64.of_N n)%float l).
    simpl in Hacc. pose proof (B64_unit_le id) as Hu.
    rewrite B64_unitNew_not_inherited by done.
    rewrite of_N_mul by (try done; nia). rewrite of_N_add by nia.
    rewrite IH by nia. f_equal. simpl. lia.
Qed.

Lemma B64_in_range_bounds l n f :
  B64.in_range l n f →
  (n < 2 ^ 53 ∧ f < 2 ^ 53 ∧ B64.unitSum l * n < 2 ^ 53
   ∧ B64.unitSum l * n * f < 2 ^ 53)%N.
Proof.
  unfold B64.in_range.
  pose proof (N.le_max_l 1 (B64.unitSum l)). pose proof (N.le_max_r 1 (B64.unitSum l)).
  pose proof (N.le_max_l 1 n). pose proof (N.le_max_r 1 n).
  pose proof (N.le_max_l 1 f). pose proof (N.le_max_r 1 f).
  set (a := N.max 1 (B64.unitSum l)) in *. set (b := N.max 1 n) in *.
  set (c := N.max 1 f) in *. clearbody a b c. intros Habc.
  assert (B64.unitSum l * n ≤ a * b)%N by (by apply N.mul_le_mono).
  assert (B64.unitSum l * n * f ≤ a * b * c)%N by (by apply N.mul_le_mono).
  assert (b ≤ a * b)%N by nia. assert (a * b ≤ a * b * c)%N by nia.
  assert (c ≤ a * b * c)%N by nia. lia.
Qed.

(** The product savings of a whole request, in closed form. *)
Lemma B64_productSavings_whole p n f :
  B64.nbEmployes p = B64.of_N n → B64.frequence p = B64.of_N f →
  Forall (λ id, inherited id = false) (B64.articlesSelectionnes p) →
  B64.in_range (B64.articlesSelectionnes p) n f →
  B64.productSavings (B64.calculateSavings p)
  = B64.of_N (B64.unitSum (B64.articlesSelectionnes p) * n * f).
Proof.
  intros Hn Hf Hl (? & ? & ? & ?)%B64_in_range_bounds.
  rewrite B64_productSavings_eq, Hn, Hf.
  change 0%float with (B64.of_N 0).
  rewrite B64_running_whole by (try done; lia).
  rewrite of_N_mul by (try done; lia). f_equal.
Qed.

(** The sign of the fields. *)
Lemma B64_unitNew_nonneg id :
  inherited id = false →
  B64.nonneg_SF (Prim2SF (B64.unitNew id)) ∧ B64.bounded_SF (Prim2SF (B64.unitNew id)).
Proof.
  intros Hid. rewrite B64_unitNew_not_inherited by done.
  pose proof (B64_unit_le id). rewrite Prim2SF_of_N by lia.
  apply nonneg_whole_SF.
Qed.

Lemma B64_running_nonneg nb l acc :
  B64.nonneg_SF (Prim2SF nb) → B64.bounded_SF (Prim2SF nb) →
  Forall (λ id, inherited id = false) l →
  B64.nonneg_SF (Prim2SF acc) →
  B64.nonneg_SF (Prim2SF (B64.running B64.unitNew nb acc l)).
Proof.
  intros Hnb Hnb' Hl. revert acc. induction Hl as [|id l Hid _ IH]; intros acc Hacc.
  - done.
  - change (B64.running B64.unitNew nb acc (id :: l))
      with (B64.running B64.unitNew nb (acc + B64.unitNew id * nb)%float l).
    apply IH. rewrite add_spec, mul_spec.
    destruct (B64_unitNew_nonneg id Hid). apply SFadd_nonneg; [done|].
    by apply SFmul_nonneg_bounded.
Qed.

Lemma B64_adminSavings_nonneg p :
  (0 <=? B64.heuresMensuelles p)%float = true →
  (B64.heuresMensuelles p <? infinity)%float = true →
  (0 <=? B64.tauxHoraire p)%float = true →
  (B64.tauxHoraire p <? infinity)%float = true →
  B64.nonneg_SF (Prim2SF (B64.adminSavings (B64.calculateSavings p))).
Proof.
  intros Hh0 Hh1 Ht0 Ht1.
  destruct (nonneg_bounded _ Hh0 Hh1) as [Hh Hh'].
  destruct (nonneg_bounded _ Ht0 Ht1) as [Ht Ht'].
  change (B64.adminSavings (B64.calculateSavings p))
    with (B64.heuresMensuelles p * B64.tauxHoraire p * 12 * 0.70)%float.
  rewrite !mul_spec.
  change (Prim2SF 0.70) with (S754_finite false 6305039478318694 (-53)).
  change (Prim2SF 12) with (S754_finite false 6755399441055744 (-49)).
  do 2 apply SFmul_nonneg_finite. by apply SFmul_nonneg_bounded.
Qed.

Lemma B64_productSavings_nonneg p :
  (0 <=? B64.nbEmployes p)%float = true →
  (B64.nbEmployes p <? infinity)%float = true →
  (0 <? B64.frequence p)%float = true →
  (B64.frequence p <? infinity)%float = true →
  Forall (λ id, inherited id = false) (B64.articlesSelectionnes p) →
  B64.nonneg_SF (Prim2SF (B64.productSavings (B64.calculateSavings p))).
Proof.
  intros Hnb0 Hnb1 Hf Hf' Hl.
  destruct (nonneg_bounded _ Hnb0 Hnb1) as [Hnb Hnb'].
  destruct (positive_finite _ Hf Hf') as (m & e & Hfe).
  rewrite B64_productSavings_eq, mul_spec, Hfe.
  apply SFmul_nonneg_finite. by apply B64_running_nonneg.
Qed.

(** ** Comparing two Numbers *)

Lemma float_neq (x y : float) :
  (x =? y)%float = false → (y =? y)%float = true → x ≠ y.
Proof. intros Hxy Hy ->. congruence. Qed.

Lemma of_N_eqb n : (n < 2 ^ 53)%N → (B64.of_N n =? B64.of_N n)%float = true.
Proof.
  intros Hn. rewrite FloatAxioms.eqb_spec, Prim2SF_of_N by done.
  destruct n as [|p]; [done|]. unfold SFeqb, B64.whole_SF, B64.whole_pos, SFcompare.
  by rewrite Z.compare_refl, Pos.compare_cont_refl.
Qed.

(** Two Numbers that are the same whole number are equal, as values and
    under JavaScript's [==]. *)
Lemma of_N_equal (x y : float) n :
  (n < 2 ^ 53)%N → x = B64.of_N n → y = B64.of_N n →
  x = y ∧ (x =? y)%float = true.
Proof. intros Hn -> ->. split; [done|]. by apply of_N_eqb. Qed.

(** ** The invariant on the total *)

(** C1, as stated, fails for [calculerEconomies]: for 10 employees at
    10.75 $ an hour, 5 hours a month, 4 orders a year of t-shirts, it returns
    451, 280 and 732, and 451 + 280 is 731. *)
Lemma B64_rounded_total_not_sum :
  let r := B64.calculerEconomies B64.fractionalRate in
  r = {| B64.economiesAdmin := 451; B64.economiesProduits := 280;
         B64.totalEconomies := 732 |}
  ∧ (B64.totalEconomies r =? B64.economiesAdmin r + B64.economiesProduits r)%float
    = false
  ∧ B64.totalEconomies r ≠ (B64.economiesAdmin r + B64.economiesProduits r)%float.
Proof.
  intros r. split; [by vm_compute|]. split; [by vm_compute|].
  apply float_neq; by vm_compute.
Qed.

(** C1 (amended): the total of [calculateSavings] is the binary64 sum of its
    two parts, for every request: the same value, and equal to it under
    JavaScript's [==] unless the total is NaN.  [calculerEconomies] rounds
    the three unrounded values separately: its total is [Math.round] of
    that sum, not the sum of its two rounded parts. *)
Theorem B64_total_is_sum (p : B64.params) :
  let r := B64.calculateSavings p in
  let r' := B64.calculerEconomies p in
  B64.totalSavings r = (B64.adminSavings r + B64.productSavings r)%float
  ∧ (B64.totalSavings r =? B64.adminSavings r + B64.productSavings r)%float
    = negb (is_nan (B64.totalSavings r))
  ∧ B64.economiesAdmin r' = B64.Math_round (B64.adminSavings r)
  ∧ B64.economiesProduits r' = B64.Math_round (B64.productSavings r)
  ∧ B64.totalEconomies r'
    = B64.Math_round (B64.adminSavings r + B64.productSavings r)%float.
Proof.
  intros r r'. subst r'. rewrite B64_calculerEconomies_eq. fold r.
  cbn [B64.economiesAdmin B64.economiesProduits B64.totalEconomies].
  assert (B64.totalSavings r = (B64.adminSavings r + B64.productSavings r)%float)
    as Ht by reflexivity.
  rewrite <- Ht. repeat split. unfold is_nan. by rewrite negb_involutive.
Qed.

(** ** Administrative savings *)

(** C2: the administrative savings of [calculateSavings] are the value of
    hours × rate × 12 × 0.70, the products taken from left to right in
    binary64 with 0.70 the binary64 closest to it; this for every request,
    as the same value.  For hours and a rate that are finite and not below
    0 that value is a number, not below 0 (+∞ when the product overflows),
    so that the equation holds under JavaScript's [==] too. *)
Theorem B64_adminSavings_formula (p : B64.params) :
  let h := B64.heuresMensuelles p in
  let t := B64.tauxHoraire p in
  let a := B64.adminSavings (B64.calculateSavings p) in
  a = (h * t * 12 * 0.70)%float
  ∧ ((0 <=? h)%float = true → (h <? infinity)%float = true →
     (0 <=? t)%float = true → (t <? infinity)%float = true →
     (a =? h * t * 12 * 0.70)%float = true ∧ (0 <=? a)%float = true).
Proof.
  intros h t a. split; [reflexivity|]. intros Hh Hh' Ht Ht'.
  pose proof (B64_adminSavings_nonneg p Hh Hh' Ht Ht') as Ha. fold a in Ha.
  split; [by apply nonneg_eqb|by apply nonneg_leb_0].
Qed.

Lemma B64_adminSavings_formula_witness :
  let a := B64.adminSavings (B64.calculateSavings B64.fractionalRate) in
  (a =? 5 * 10.75 * 12 * 0.70)%float = true ∧ (0 <=? a)%float = true.
Proof.
  apply (proj2 (B64_adminSavings_formula B64.fractionalRate)); reflexivity.
Defined.

(** 5 hours at 20 $ give 840; 5 hours at 10.75 $ give 451.49999999999994,
    the real product being 451.5. *)
Example B64_adminSavings_values :
  B64.adminSavings (B64.calculateSavings B64.scenario) = 840%float
  ∧ B64.adminSavings (B64.calculateSavings B64.fractionalRate)
    = 451.49999999999994%float
  ∧ 451.49999999999994%float ≠ 451.5%float.
Proof. split; [by vm_compute|]. split; [by vm_compute|]. apply float_neq; by vm_compute. Qed.

(** ** Rounding inside the calculators *)

(** C4, as stated, fails for [calculerEconomies]: on the smallest valid
    request the unrounded administrative savings are 8.3999999999999986 and
    it returns 8. *)
Lemma B64_calculerEconomies_not_exact :
  let p := B64.minimal in
  (B64.heuresMensuelles p * B64.tauxHoraire p * 12 * 0.70)%float
  = 8.3999999999999986%float
  ∧ B64.economiesAdmin (B64.calculerEconomies p) = 8%float
  ∧ B64.economiesAdmin (B64.calculerEconomies p)
    ≠ (B64.heuresMensuelles p * B64.tauxHoraire p * 12 * 0.70)%float.
Proof.
  intros p. split; [by vm_compute|]. split; [by vm_compute|].
  apply float_neq; by vm_compute.
Qed.

(** C4 (amended): the fields of [calculateSavings] are the values of its
    formulas as binary64 computes them, the loop adding unit × employees per
    selected identifier, and no rounding to a whole number or to cents is
    applied; [calculerEconomies] returns each of the same three values
    rounded to the nearest whole number by [Math.round]. *)
Theorem B64_fields_unrounded (p : B64.params) :
  let admin := (B64.heuresMensuelles p * B64.tauxHoraire p * 12 * 0.70)%float in
  let products :=
    (fold_left (λ total id, total + B64.unitNew id * B64.nbEmployes p)
               (B64.articlesSelectionnes p) 0
     * B64.frequence p)%float in
  B64.calculateSavings p
  = {| B64.adminSavings := admin;
       B64.productSavings := products;
       B64.totalSavings := (admin + products)%float |}
  ∧ B64.calculerEconomies p
    = {| B64.economiesAdmin := B64.Math_round admin;
         B64.economiesProduits := B64.Math_round products;
         B64.totalEconomies := B64.Math_round (admin + products)%float |}.
Proof.
  intros admin products. split; [reflexivity|].
  by rewrite B64_calculerEconomies_eq.
Qed.

(** ** The two implementations side by side *)

(** C5, as stated, fails: on the smallest valid request [calculateSavings]
    returns administrative savings 8.3999999999999986 and
    [calculerEconomies] 8. *)
Lemma B64_implementations_differ :
  B64.adminSavings (B64.calculateSavings B64.minimal) = 8.3999999999999986%float
  ∧ B64.economiesAdmin (B64.calculerEconomies B64.minimal) = 8%float
  ∧ B64.adminSavings (B64.calculateSavings B64.minimal)
    ≠ B64.economiesAdmin (B64.calculerEconomies B64.minimal).
Proof.
  split; [by vm_compute|]. split; [by vm_compute|]. apply float_neq; by vm_compute.
Qed.

(** C5 (amended): for every request, each field of [calculerEconomies] is
    [Math.round] of the corresponding field of [calculateSavings]. *)
Theorem B64_calculerEconomies_rounds_calculateSavings (p : B64.params) :
  let r := B64.calculateSavings p in
  let r' := B64.calculerEconomies p in
  B64.economiesAdmin r' = B64.Math_round (B64.adminSavings r)
  ∧ B64.economiesProduits r' = B64.Math_round (B64.productSavings r)
  ∧ B64.totalEconomies r' = B64.Math_round (B64.totalSavings r).
Proof. intros r r'. subst r' r. by rewrite B64_calculerEconomies_eq. Qed.

(** ** Doubling *)

(** A right shift halves the mantissa. *)
Lemma shr_1_m r : (0 ≤ shr_m r)%Z → shr_m (shr_1 r) = (shr_m r / 2)%Z.
Proof.
  rewrite <- Z.div2_div.
  by destruct r as [[|[p|p|]|p] r s]; simpl; try lia.
Qed.

Lemma iter_shr_m n r :
  (0 ≤ shr_m r)%Z →
  shr_m (SpecFloat.iter_pos shr_1 n r) = (shr_m r / 2 ^ Zpos n)%Z.
Proof.
  intros Hr. rewrite iter_pos_iter. revert r Hr.
  induction n using Pos.peano_ind; intros r Hr.
  - simpl. rewrite shr_1_m by done. f_equal.
  - rewrite Pos.iter_succ, shr_1_m.
    + rewrite IHn by done. rewrite Pos2Z.inj_succ, Z.pow_succ_r by lia.
      rewrite Z.div_div by (try lia; apply Z.pow_pos_nonneg; lia).
      f_equal. lia.
    + rewrite IHn by done. apply Z.div_pos; [done|]. apply Z.pow_pos_nonneg; lia.
Qed.

Lemma fexp_linear x : (-1021 ≤ x)%Z → fexp prec emax x = (x - 53)%Z.
Proof. unfold fexp, SpecFloat.emin, prec, emax. lia. Qed.

Lemma round_nearest_even_bounds m l :
  (m ≤ round_nearest_even m l ≤ m + 1)%Z.
Proof. destruct l as [|[]]; simpl; try destruct (IntDef.Z.even m); lia. Qed.

Lemma Zdigits2_mono a b : (0 < a ≤ b)%Z → (Zdigits2 a ≤ Zdigits2 b)%Z.
Proof.
  destruct a as [|a|a], b as [|b|b]; try lia. intros H.
  apply (digits_mono a b). lia.
Qed.

Lemma Zdigits2_ge a k : (0 ≤ k)%Z → (2 ^ k ≤ a)%Z → (k + 1 ≤ Zdigits2 a)%Z.
Proof.
  intros Hk H. assert (0 < 2 ^ k)%Z by (apply Z.pow_pos_nonneg; lia).
  destruct a as [|a|a]; try lia.
  change (Zdigits2 (Z.pos a)) with (B64.digits a).
  destruct (Z.le_gt_cases (k + 1) (B64.digits a)) as [|Hlt]; [done|].
  pose proof (digits_bounds a) as [_ Hb].
  assert (2 ^ B64.digits a ≤ 2 ^ k)%Z; [|lia].
  apply Z.pow_le_mono_r; lia.
Qed.

(** One shift of [binary_round_aux] in the range of the normal numbers:
    the exponent of the input goes through unchanged. *)
Lemma shr_fexp_normal (m : positive) e :
  (-1021 ≤ B64.digits m + e)%Z →
  ∃ r e',
    shr_fexp prec emax (Z.pos m) e loc_Exact = (r, e') ∧
    shr_fexp prec emax (Z.pos m) (e + 1) loc_Exact = (r, (e' + 1)%Z) ∧
    (B64.digits m + e - 53 ≤ e')%Z ∧ (e ≤ e')%Z ∧
    (0 < shr_m r)%Z ∧
    (B64.digits m + e ≤ Zdigits2 (shr_m r) + e')%Z.
Proof.
  intros Hn. unfold shr_fexp.
  change (Zdigits2 (Z.pos m)) with (B64.digits m).
  rewrite !fexp_linear by lia.
  replace (B64.digits m + (e + 1) - 53 - (e + 1))%Z with (B64.digits m - 53)%Z
    by lia.
  replace (B64.digits m + e - 53 - e)%Z with (B64.digits m - 53)%Z by lia.
  destruct (B64.digits m - 53)%Z as [|n|n] eqn:Hd; simpl shr.
  - eexists _, _. repeat split; simpl; try lia.
    all: unfold B64.digits in *; lia.
  - eexists _, _. split; [done|]. split; [f_equal; lia|].
    assert (2 ^ 52 ≤ shr_m (SpecFloat.iter_pos shr_1 n
      (shr_record_of_loc (Z.pos m) loc_Exact)))%Z as Hm.
    { rewrite iter_shr_m by (simpl; lia). simpl shr_m.
      pose proof (digits_bounds m) as [Hb _].
      replace (B64.digits m - 1)%Z with (52 + Z.pos n)%Z in Hb by lia.
      rewrite Z.pow_add_r in Hb by lia.
      apply Z.div_le_lower_bound; [apply Z.pow_pos_nonneg; lia|lia]. }
    pose proof (Zdigits2_ge _ 52 ltac:(lia) Hm).
    assert (0 < 2 ^ 52)%Z by done.
    change (shr_record_of_loc (Z.pos m) loc_Exact)
      with (Build_shr_record (Z.pos m) false false) in *.
    repeat split; lia.
  - eexists _, _. repeat split; simpl; try lia.
    all: unfold B64.digits in *; lia.
Qed.

(** [binary_round_aux] in the range of the normal numbers: the result is a
    number or an overflow, and raising the exponent of the input by one raises
    the exponent of the result by one. *)
Lemma round_aux_normal s (M : positive) E :
  (-1021 ≤ B64.digits M + E)%Z →
  ∃ m e,
    (B64.digits M + E - 53 ≤ e)%Z ∧ (E ≤ e)%Z ∧
    binary_round_aux prec emax s (Z.pos M) E loc_Exact =
      (if (e <=? emax - prec)%Z then S754_finite s m e else S754_infinity s) ∧
    binary_round_aux prec emax s (Z.pos M) (E + 1) loc_Exact =
      (if (e + 1 <=? emax - prec)%Z then S754_finite s m (e + 1)
       else S754_infinity s).
Proof.
  intros Hn. unfold binary_round_aux.
  destruct (shr_fexp_normal M E Hn) as (r & e' & -> & -> & He' & HE & Hr & Hd).
  pose proof (round_nearest_even_bounds (shr_m r) (loc_of_shr_record r)) as Hb.
  destruct (round_nearest_even (shr_m r) (loc_of_shr_record r))
    as [|q|q] eqn:Hq; try lia.
  assert (Zdigits2 (shr_m r) ≤ B64.digits q)%Z as Hdq
    by (apply (Zdigits2_mono _ (Z.pos q)); lia).
  destruct (shr_fexp_normal q e') as (r2 & e2 & -> & -> & He2 & HE2 & Hr2 & _);
    [lia|].
  destruct (shr_m r2) as [|m|m] eqn:Hm; try lia.
  exists m, e2. repeat split; lia.
Qed.

Lemma round_aux_scale s (M : positive) E :
  (-1021 ≤ B64.digits M + E)%Z →
  binary_round_aux prec emax s (Z.pos M) (E + 1) loc_Exact =
  B64.double_SF (binary_round_aux prec emax s (Z.pos M) E loc_Exact).
Proof.
  intros Hn. destruct (round_aux_normal s M E Hn) as (m & e & _ & _ & -> & ->).
  unfold B64.double_SF. destruct (Z.leb_spec e (emax - prec));
    destruct (Z.leb_spec (e + 1) (emax - prec)); try done; lia.
Qed.

(** A number that is at least 1 is normal: its mantissa has 53 bits. *)
Lemma valid_big s m e :
  valid_binary (S754_finite s m e) = true → (-52 ≤ e)%Z →
  B64.digits m = 53%Z ∧ (e ≤ 971)%Z.
Proof.
  simpl. unfold bounded, canonical_mantissa, fexp, SpecFloat.emin, prec, emax.
  intros [H1 H2]%andb_true_iff He. unfold B64.digits. lia.
Qed.

(** A mantissa of 53 bits followed by zeros rounds to itself. *)
Lemma round_aux_shift s (m : positive) e (k : positive) :
  B64.digits m = 53%Z → (-1074 ≤ e)%Z →
  binary_round_aux prec emax s (Z.pos (Pos.iter xO m k)) (e - Z.pos k)
    loc_Exact =
  if (e <=? emax - prec)%Z then S754_finite s m e else S754_infinity s.
Proof.
  intros Hd He. unfold binary_round_aux, shr_fexp.
  change (Zdigits2 (Z.pos ?p)) with (B64.digits p).
  change (Pos.iter xO m k) with (Pos.shiftl m (Npos k)).
  rewrite digits_shiftl, Hd.
  replace (fexp prec emax (53 + Z.of_N (N.pos k) + (e - Z.pos k))
           - (e - Z.pos k))%Z with (Z.pos k)
    by (unfold fexp, SpecFloat.emin, prec, emax; lia).
  simpl shr.
  change (shr_record_of_loc ?x loc_Exact) with (Build_shr_record x false false).
  change (Pos.shiftl m (Npos k)) with (Pos.iter xO m k).
  rewrite shr_exact. simpl loc_of_shr_record. simpl round_nearest_even.
  simpl shr_m at 1. change (Zdigits2 (Z.pos ?p)) with (B64.digits p).
  rewrite Hd.
  replace (e - Z.pos k + Z.pos k)%Z with e by lia.
  replace (fexp prec emax (53 + e) - e)%Z with 0%Z
    by (unfold fexp, SpecFloat.emin, prec, emax; lia).
  done.
Qed.

(** Multiplying by 2 raises the exponent by one, or overflows. *)
Lemma SFmul_two x :
  valid_binary x = true → B64.big_SF x →
  SF64mul (Prim2SF 2) x = B64.double_SF x.
Proof.
  change (Prim2SF 2) with (S754_finite false 4503599627370496 (-51)).
  destruct x as [s|[]| |[] m e]; try done; intros Hv Hb.
  destruct (valid_big _ _ _ Hv Hb) as [Hd He].
  unfold SF64mul, SFmul, B64.double_SF. simpl xorb.
  replace (4503599627370496 * m)%positive with (Pos.iter xO m 52)
    by (apply Pos2Z.inj; change (Pos.iter xO m 52) with (Pos.shiftl m 52);
        rewrite shiftl_value; lia).
  replace (-51 + e)%Z with (e + 1 - 52)%Z by lia.
  apply round_aux_shift; [done|simpl in Hb; lia].
Qed.

Lemma SFmul_big_finite ma ea mb eb :
  B64.digits ma = 53%Z → B64.digits mb = 53%Z → (-52 ≤ ea)%Z → (-52 ≤ eb)%Z →
  ∃ m e,
    (52 + ea + eb ≤ e)%Z ∧
    binary_round_aux prec emax false (Z.pos (ma * mb)) (ea + eb) loc_Exact =
      (if (e <=? emax - prec)%Z then S754_finite false m e
       else S754_infinity false) ∧
    binary_round_aux prec emax false (Z.pos (ma * mb)) (ea + eb + 1) loc_Exact =
      (if (e + 1 <=? emax - prec)%Z then S754_finite false m (e + 1)
       else S754_infinity false).
Proof.
  intros Ha Hb Hea Heb. pose proof (digits_mul ma mb) as Hd.
  destruct (round_aux_normal false (ma * mb) (ea + eb))
    as (m & e & He & _ & H1 & H2); [lia|].
  exists m, e. repeat split; [lia|done..].
Qed.

Lemma big_if m e :
  (-52 ≤ e)%Z →
  B64.big_SF (if (e <=? emax - prec)%Z then S754_finite false m e
       else S754_infinity false).
Proof. by destruct (e <=? emax - prec)%Z. Qed.

Lemma double_if_overflow m e :
  (971 ≤ e)%Z →
  B64.double_SF (if (e <=? emax - prec)%Z then S754_finite false m e
       else S754_infinity false) = S754_infinity false.
Proof.
  intros He. destruct (Z.leb_spec e (emax - prec)); [|done].
  unfold B64.double_SF. destruct (Z.leb_spec (e + 1) (emax - prec)); [|done].
  unfold emax, prec in *. lia.
Qed.

Lemma double_if m e :
  B64.double_SF (if (e <=? emax - prec)%Z then S754_finite false m e
       else S754_infinity false) =
  (if (e + 1 <=? emax - prec)%Z then S754_finite false m (e + 1)
   else S754_infinity false).
Proof.
  unfold B64.double_SF. destruct (Z.leb_spec e (emax - prec));
    destruct (Z.leb_spec (e + 1) (emax - prec)); try done; lia.
Qed.

Lemma SFmul_big a b :
  valid_binary a = true → valid_binary b = true → B64.big_SF a → B64.big_SF b →
  B64.big_SF (SF64mul a b).
Proof.
  destruct a as [[]|[]| |[] ma ea], b as [[]|[]| |[] mb eb]; try done.
  intros Hva Hvb Ha Hb.
  destruct (valid_big _ _ _ Hva Ha) as [Hda _].
  destruct (valid_big _ _ _ Hvb Hb) as [Hdb _].
  destruct (SFmul_big_finite ma ea mb eb) as (m & e & He & H1 & _); try done.
  unfold SF64mul, SFmul. simpl xorb. rewrite H1. apply big_if. simpl in *. lia.
Qed.

(** Doubling the right factor doubles the product. *)
Lemma SFmul_scale_r a b :
  valid_binary a = true → valid_binary b = true → B64.big_SF a → B64.big_SF b →
  (match a with S754_zero _ => B64.doubles_SF b | _ => True end) →
  SF64mul a (B64.double_SF b) = B64.double_SF (SF64mul a b).
Proof.
  intros Hva Hvb Ha Hb Hs.
  destruct b as [sb|[]| |[] mb eb]; try done;
    try (by destruct a as [[]|[]| |[] ma ea]).
  destruct (valid_big _ _ _ Hvb Hb) as [Hdb Hb'].
  destruct a as [sa|[]| |[] ma ea]; try done.
  - simpl in Hs. unfold B64.double_SF at 1.
    by destruct (Z.leb_spec (eb + 1) (emax - prec));
      [|unfold emax, prec in *; lia].
  - unfold B64.double_SF at 1. by destruct (eb + 1 <=? emax - prec)%Z.
  - destruct (valid_big _ _ _ Hva Ha) as [Hda Ha'].
    destruct (SFmul_big_finite ma ea mb eb) as (m & e & He & H1 & H2);
      try done.
    unfold B64.double_SF at 1. unfold SF64mul, SFmul. simpl xorb. rewrite H1.
    destruct (Z.leb_spec (eb + 1) (emax - prec)) as [Ho|Ho].
    + rewrite Z.add_assoc, H2. by rewrite double_if.
    + rewrite double_if_overflow; [done|]. unfold emax, prec in *.
      simpl in Ha, Hb. lia.
Qed.

(** Doubling the left factor doubles the product. *)
Lemma SFmul_scale_l a b :
  valid_binary a = true → valid_binary b = true → B64.big_SF a → B64.big_SF b →
  (match b with S754_zero _ => B64.doubles_SF a | _ => True end) →
  SF64mul (B64.double_SF a) b = B64.double_SF (SF64mul a b).
Proof.
  intros Hva Hvb Ha Hb Hs.
  destruct a as [sa|[]| |[] ma ea]; try done;
    try (by destruct b as [[]|[]| |[] mb eb]).
  destruct (valid_big _ _ _ Hva Ha) as [Hda Ha'].
  destruct b as [sb|[]| |[] mb eb]; try done.
  - simpl in Hs. unfold B64.double_SF at 1.
    by destruct (Z.leb_spec (ea + 1) (emax - prec));
      [|unfold emax, prec in *; lia].
  - unfold B64.double_SF at 1. by destruct (ea + 1 <=? emax - prec)%Z.
  - unfold B64.double_SF at 1. by destruct (ea + 1 <=? emax - prec)%Z.
  - destruct (valid_big _ _ _ Hvb Hb) as [Hdb Hb'].
    destruct (SFmul_big_finite ma ea mb eb) as (m & e & He & H1 & H2);
      try done.
    unfold B64.double_SF at 1. unfold SF64mul, SFmul. simpl xorb. rewrite H1.
    destruct (Z.leb_spec (ea + 1) (emax - prec)) as [Ho|Ho].
    + cbv iota. simpl xorb. replace (ea + 1 + eb)%Z with (ea + eb + 1)%Z by lia.
      rewrite H2. by rewrite double_if.
    + rewrite double_if_overflow; [done|]. unfold emax, prec in *.
      simpl in Ha, Hb. lia.
Qed.

Lemma SFadd_big_finite ma ea mb eb :
  B64.digits ma = 53%Z → B64.digits mb = 53%Z → (-52 ≤ ea)%Z → (-52 ≤ eb)%Z →
  ∃ m e,
    (ea ≤ e)%Z ∧ (eb ≤ e)%Z ∧
    SF64add (S754_finite false ma ea) (S754_finite false mb eb) =
      (if (e <=? emax - prec)%Z then S754_finite false m e
       else S754_infinity false) ∧
    SF64add (S754_finite false ma (ea + 1)) (S754_finite false mb (eb + 1)) =
      (if (e + 1 <=? emax - prec)%Z then S754_finite false m (e + 1)
       else S754_infinity false).
Proof.
  intros Ha Hb Hea Heb. unfold SF64add, SFadd.
  rewrite Z.add_min_distr_r. set (ez := Z.min ea eb).
  rewrite !shl_align_fst by lia. simpl fst. simpl cond_Zopp.
  replace (ea + 1 - (ez + 1))%Z with (ea - ez)%Z by lia.
  replace (eb + 1 - (ez + 1))%Z with (eb - ez)%Z by lia.
  set (A := Pos.shiftl ma (Z.to_N (ea - ez))).
  set (B := Pos.shiftl mb (Z.to_N (eb - ez))).
  change (Z.pos A + Z.pos B)%Z with (Z.pos (A + B)).
  assert (B64.digits A = 53 + (ea - ez))%Z as HA
    by (unfold A; rewrite digits_shiftl; lia).
  assert (B64.digits B = 53 + (eb - ez))%Z as HB
    by (unfold B; rewrite digits_shiftl; lia).
  assert (B64.digits A ≤ B64.digits (A + B))%Z by (apply digits_mono; lia).
  assert (B64.digits B ≤ B64.digits (A + B))%Z by (apply digits_mono; lia).
  unfold binary_normalize, binary_round.
  change (Z.pos (digits2_pos (A + B))) with (B64.digits (A + B)).
  rewrite !fexp_linear by lia. rewrite !shl_align_id by lia.
  destruct (round_aux_normal false (A + B) ez) as (m & e & He & _ & H1 & H2);
    [lia|].
  exists m, e. repeat split; [lia..|done|done].
Qed.

Lemma SFadd_big a b :
  valid_binary a = true → valid_binary b = true → B64.big_SF a → B64.big_SF b →
  B64.big_SF (SF64add a b).
Proof.
  destruct a as [[]|[]| |[] ma ea], b as [[]|[]| |[] mb eb]; try done.
  intros Hva Hvb Ha Hb.
  destruct (valid_big _ _ _ Hva Ha) as [Hda _].
  destruct (valid_big _ _ _ Hvb Hb) as [Hdb _].
  destruct (SFadd_big_finite ma ea mb eb) as (m & e & He & _ & -> & _);
    try done.
  apply big_if. simpl in *. lia.
Qed.

(** Doubling both terms doubles the sum. *)
Lemma SFadd_scale a b :
  valid_binary a = true → valid_binary b = true → B64.big_SF a → B64.big_SF b →
  SF64add (B64.double_SF a) (B64.double_SF b) = B64.double_SF (SF64add a b).
Proof.
  intros Hva Hvb Ha Hb.
  destruct a as [sa|[]| |[] ma ea]; try done.
  - destruct b as [sb|[]| |[] mb eb]; try done.
    + by destruct sa, sb.
    + by destruct (eb + 1 <=? emax - prec)%Z eqn:E;
      unfold B64.double_SF, SF64add, SFadd; rewrite ?E.
  - destruct b as [sb|[]| |[] mb eb]; try done.
    by destruct (eb + 1 <=? emax - prec)%Z eqn:E;
      unfold B64.double_SF, SF64add, SFadd; rewrite ?E.
  - destruct (valid_big _ _ _ Hva Ha) as [Hda Ha'].
    destruct b as [sb|[]| |[] mb eb]; try done.
    + by destruct (ea + 1 <=? emax - prec)%Z eqn:E;
      unfold B64.double_SF, SF64add, SFadd; rewrite ?E.
    + by destruct (ea + 1 <=? emax - prec)%Z eqn:E;
      unfold B64.double_SF, SF64add, SFadd; rewrite ?E.
    + by destruct (ea + 1 <=? emax - prec)%Z eqn:E;
      unfold B64.double_SF, SF64add, SFadd; rewrite ?E.
    + destruct (valid_big _ _ _ Hvb Hb) as [Hdb Hb'].
      destruct (SFadd_big_finite ma ea mb eb) as (m & e & Hea & Heb & H1 & H2);
        try done.
      rewrite H1. unfold B64.double_SF at 1 2.
      destruct (Z.leb_spec (ea + 1) (emax - prec)) as [Hoa|Hoa];
        destruct (Z.leb_spec (eb + 1) (emax - prec)) as [Hob|Hob].
      * rewrite H2. by rewrite double_if.
      * rewrite double_if_overflow; [done|unfold emax, prec in *; lia].
      * rewrite double_if_overflow; [done|unfold emax, prec in *; lia].
      * rewrite double_if_overflow; [done|unfold emax, prec in *; lia].
Qed.

(** The test that the theorem below places on its inputs. *)
Lemma big_test x :
  ((x =? 0) || (1 <=? x))%float = true → B64.big_SF (Prim2SF x).
Proof.
  rewrite FloatAxioms.eqb_spec, leb_spec.
  change (Prim2SF 0) with (S754_zero false).
  change (Prim2SF 1) with (S754_finite false 4503599627370496 (-52)).
  intros [H|H]%orb_true_iff; destruct (Prim2SF x) as [s|[]| |[] m e];
    try done.
  unfold SFleb, SFcompare in H. simpl.
  destruct (Z.compare_spec (-52) e); try done; lia.
Qed.

Lemma big_of_N n : (n < 2 ^ 53)%N → B64.big_SF (Prim2SF (B64.of_N n)).
Proof.
  intros Hn. rewrite Prim2SF_of_N by done. destruct n as [|p]; [done|].
  simpl. pose proof (digits_pos p). lia.
Qed.

Lemma big_unitNew id : B64.big_SF (Prim2SF (B64.unitNew id)).
Proof.
  destruct (JS.inherited id) eqn:Hi.
  - by rewrite B64_unitNew_inherited.
  - rewrite B64_unitNew_not_inherited by done. apply big_of_N.
    destruct (B64.units !! id) as [u|] eqn:Hu; [|done].
    apply B64_units_lookup in Hu as [? _]. simpl. lia.
Qed.

Lemma B64_running_big nb l acc :
  B64.big_SF (Prim2SF nb) → B64.big_SF (Prim2SF acc) →
  B64.big_SF (Prim2SF (B64.running B64.unitNew nb acc l)).
Proof.
  intros Hnb. revert acc. induction l as [|id l IH]; intros acc Hacc; [done|].
  apply IH. rewrite add_spec. apply SFadd_big; try apply Prim2SF_valid; [done|].
  rewrite mul_spec. apply SFmul_big; try apply Prim2SF_valid; [|done].
  apply big_unitNew.
Qed.

(** The loop for the doubled number of employees stays at the double of the
    loop for the number itself. *)
Lemma B64_running_scale nb nb' l acc acc' :
  B64.big_SF (Prim2SF nb) → B64.doubles_SF (Prim2SF nb) →
  Prim2SF nb' = B64.double_SF (Prim2SF nb) →
  B64.big_SF (Prim2SF acc) → Prim2SF acc' = B64.double_SF (Prim2SF acc) →
  Prim2SF (B64.running B64.unitNew nb' acc' l)
  = B64.double_SF (Prim2SF (B64.running B64.unitNew nb acc l)).
Proof.
  intros Hnb Ho Hnb'. revert acc acc'.
  induction l as [|id l IH]; intros acc acc' Hacc Hacc'; [done|].
  pose proof (big_unitNew id) as Hu.
  assert (B64.big_SF (Prim2SF (B64.unitNew id * nb)%float)) as Ht
    by (rewrite mul_spec; apply SFmul_big; try apply Prim2SF_valid; done).
  apply IH.
  - rewrite add_spec. apply SFadd_big; try apply Prim2SF_valid; done.
  - rewrite !add_spec, Hacc', (mul_spec _ nb'), Hnb'.
    rewrite SFmul_scale_r; try apply Prim2SF_valid; try done.
    + rewrite <- mul_spec. apply SFadd_scale; try apply Prim2SF_valid; done.
    + by destruct (Prim2SF (B64.unitNew id)).
Qed.

(** With infinitely many employees the loop's total is NaN or Infinity
    from the first product on. *)
Lemma B64_running_nonfinite nb l acc :
  Prim2SF nb = S754_infinity false →
  B64.nonfinite_SF (Prim2SF acc) →
  B64.nonfinite_SF (Prim2SF (B64.running B64.unitNew nb acc l)).
Proof.
  intros Hnb. revert acc. induction l as [|id l IH]; intros acc Hacc; [done|].
  apply IH. rewrite add_spec, mul_spec, Hnb.
  pose proof (big_unitNew id) as Hu.
  destruct (Prim2SF (B64.unitNew id)) as [[]|[]| |[] m e]; try done;
    destruct Hacc as [-> | ->]; first [by left|by right].
Qed.

Lemma B64_running_overflow nb id l acc :
  Prim2SF nb = S754_infinity false →
  B64.big_SF (Prim2SF acc) →
  B64.nonfinite_SF (Prim2SF (B64.running B64.unitNew nb acc (id :: l))).
Proof.
  intros Hnb Hacc.
  change (B64.running B64.unitNew nb acc (id :: l))
    with (B64.running B64.unitNew nb (acc + B64.unitNew id * nb) l).
  apply B64_running_nonfinite; [done|].
  rewrite add_spec, mul_spec, Hnb.
  pose proof (big_unitNew id) as Hu.
  destruct (Prim2SF (B64.unitNew id)) as [[]|[]| |[] m e]; try done;
    destruct (Prim2SF acc) as [[]|[]| |[] m' e']; try done;
    first [by left|by right].
Qed.

Lemma nonfinite_ltb x :
  B64.nonfinite_SF (Prim2SF x) → (x <? infinity)%float = false.
Proof. rewrite ltb_spec. by intros [-> | ->]. Qed.

Lemma finite_eqb x : (x <? infinity)%float = true → (x =? x)%float = true.
Proof.
  rewrite ltb_spec, FloatAxioms.eqb_spec.
  destruct (Prim2SF x) as [s|[]| |[] m e]; try done;
    unfold SFeqb, SFcompare; rewrite Z.compare_refl;
    by rewrite Pos.compare_cont_refl.
Qed.

Lemma Prim2SF_double x :
  B64.big_SF (Prim2SF x) → Prim2SF (2 * x) = B64.double_SF (Prim2SF x).
Proof. intros Hx. rewrite mul_spec. apply SFmul_two; [apply Prim2SF_valid|done]. Qed.

Lemma overflow_double x :
  B64.big_SF x → ¬ B64.doubles_SF x → B64.double_SF x = S754_infinity false.
Proof.
  destruct x as [s|[]| |[] m e]; try done. simpl. intros _ Ho.
  destruct (Z.leb_spec (e + 1) (emax - prec)); [|done].
  unfold emax, prec in *. lia.
Qed.

Lemma doubles_dec x : B64.doubles_SF x ∨ ¬ B64.doubles_SF x.
Proof. destruct x as [| | |s m e]; simpl; try tauto. lia. Qed.

(** Doubling the number of employees doubles the loop's total, unless the
    doubled total is NaN or Infinity. *)
Lemma B64_running_double nb l :
  B64.big_SF (Prim2SF nb) →
  Prim2SF (B64.running B64.unitNew (2 * nb) 0 l)
  = B64.double_SF (Prim2SF (B64.running B64.unitNew nb 0 l))
  ∨ B64.nonfinite_SF (Prim2SF (B64.running B64.unitNew (2 * nb) 0 l)).
Proof.
  intros Hnb. destruct (doubles_dec (Prim2SF nb)) as [Ho|Ho].
  - left. apply B64_running_scale; try done. by apply Prim2SF_double.
  - destruct l as [|id l]; [by left|]. right.
    apply B64_running_overflow; [|done].
    rewrite Prim2SF_double by done. by apply overflow_double.
Qed.

Lemma B64_double_employees nb f l :
  B64.big_SF (Prim2SF nb) → B64.big_SF (Prim2SF f) →
  let S := B64.running B64.unitNew nb 0 l in
  let S' := B64.running B64.unitNew (2 * nb) 0 l in
  (S' * f <? infinity)%float = true →
  (S' * f)%float = (2 * (S * f))%float.
Proof.
  intros Hnb Hf S S' Hfin.
  assert (B64.big_SF (Prim2SF S)) as HS by (by apply B64_running_big).
  assert (Prim2SF S' = B64.double_SF (Prim2SF S)) as HS'.
  { destruct (B64_running_double nb l Hnb) as [|Hnf]; [done|]. exfalso.
    fold S' in Hnf. rewrite ltb_spec, mul_spec in Hfin.
    destruct Hnf as [Hnf|Hnf]; rewrite Hnf in Hfin;
      by destruct (Prim2SF f) as [[]|[]| |[] m e]. }
  apply Prim2SF_inj. rewrite Prim2SF_double.
  2:{ rewrite mul_spec. apply SFmul_big; try apply Prim2SF_valid; done. }
  rewrite !mul_spec, HS'.
  apply SFmul_scale_l; try apply Prim2SF_valid; try done.
  destruct (Prim2SF f) as [sf| | |] eqn:Ef; try done.
  destruct (doubles_dec (Prim2SF S)) as [|Ho]; [done|]. exfalso.
  rewrite ltb_spec, mul_spec, HS', Ef, overflow_double in Hfin by done.
  by destruct sf.
Qed.

Lemma B64_double_frequency nb f l :
  B64.big_SF (Prim2SF nb) → B64.big_SF (Prim2SF f) →
  let S := B64.running B64.unitNew nb 0 l in
  (S * (2 * f) <? infinity)%float = true →
  (S * (2 * f))%float = (2 * (S * f))%float.
Proof.
  intros Hnb Hf S Hfin.
  assert (B64.big_SF (Prim2SF S)) as HS by (by apply B64_running_big).
  apply Prim2SF_inj. rewrite Prim2SF_double.
  2:{ rewrite mul_spec. apply SFmul_big; try apply Prim2SF_valid; done. }
  rewrite (mul_spec S (2 * f)), (mul_spec S f), (Prim2SF_double f) by done.
  apply SFmul_scale_r; try apply Prim2SF_valid; try done.
  destruct (Prim2SF S) as [sS| | |] eqn:ES; try done.
  destruct (doubles_dec (Prim2SF f)) as [|Ho]; [done|]. exfalso.
  rewrite ltb_spec, mul_spec, ES, Prim2SF_double, overflow_double in Hfin by done.
  by destruct sS.
Qed.

(** ** Scaling *)

(** C6, as stated, fails: with 2^1018 employees, frequency 0 and a coat
    selected the product savings are 0; with twice as many employees the
    loop overflows to Infinity, and Infinity × 0 is NaN, not 2 × 0. *)
Lemma B64_doubling_overflows :
  let p := B64.huge in
  let p' := B64.set_nbEmployes (2 * B64.nbEmployes p) p in
  B64.productSavings (B64.calculateSavings p) = 0%float
  ∧ B64.productSavings (B64.calculateSavings p') = nan
  ∧ B64.productSavings (B64.calculateSavings p')
    ≠ (2 * B64.productSavings (B64.calculateSavings p))%float.
Proof.
  intros p p'. split; [by vm_compute|]. split; [by vm_compute|].
  apply float_neq; by vm_compute.
Qed.

(** Nor does doubling survive rounding near the bottom of the range: with
    3 × 2^-1074 employees and frequency 0.5 the product savings are
    10 × 2^-1074, and 21 × 2^-1074 with twice as many employees. *)
Example B64_doubling_underflows :
  let p := B64.tiny in
  let p' := B64.set_nbEmployes (2 * B64.nbEmployes p) p in
  B64.productSavings (B64.calculateSavings p) = 0xap-1074%float
  ∧ B64.productSavings (B64.calculateSavings p') = 0x15p-1074%float
  ∧ (2 * B64.productSavings (B64.calculateSavings p))%float = 0x14p-1074%float.
Proof. intros p p'. repeat split; by vm_compute. Qed.

Lemma of_N_2 : B64.of_N 2 = 2%float.
Proof. reflexivity. Qed.

(** C6 (amended): take a request whose number of employees and frequency are
    each 0 or at least 1.  Doubling the number of employees doubles the
    product savings whenever the product savings of the doubled request are
    finite, and so does doubling the frequency: the two sides are the same
    number, equal under JavaScript's [==] too.  The administrative savings
    depend neither on the number of employees nor on the selected products,
    for every request. *)
Theorem B64_scaling (p : B64.params) :
  let products q := B64.productSavings (B64.calculateSavings q) in
  let nb := B64.nbEmployes p in
  let f := B64.frequence p in
  (((nb =? 0) || (1 <=? nb))%float = true →
   ((f =? 0) || (1 <=? f))%float = true →
   (let doubled := products (B64.set_nbEmployes (2 * nb) p) in
    (doubled <? infinity)%float = true →
    doubled = (2 * products p)%float
    ∧ (doubled =? 2 * products p)%float = true)
   ∧ (let doubled := products (B64.set_frequence (2 * f) p) in
      (doubled <? infinity)%float = true →
      doubled = (2 * products p)%float
      ∧ (doubled =? 2 * products p)%float = true))
  ∧ ∀ (nb' : float) (articles : list string),
      B64.adminSavings
        (B64.calculateSavings (B64.set_articles articles (B64.set_nbEmployes nb' p)))
      = B64.adminSavings (B64.calculateSavings p).
Proof.
  intros products nb f. split; [|done].
  intros Hnb%big_test Hf%big_test. subst products. cbv beta.
  rewrite !B64_productSavings_eq. simpl. fold nb f. split.
  - intros Hfin. pose proof (B64_double_employees nb f _ Hnb Hf Hfin) as H.
    cbv zeta in H. split; [done|]. rewrite <- H. by apply finite_eqb.
  - intros Hfin. pose proof (B64_double_frequency nb f _ Hnb Hf Hfin) as H.
    cbv zeta in H. split; [done|]. rewrite <- H. by apply finite_eqb.
Qed.

Lemma B64_scaling_witness :
  B64.productSavings
    (B64.calculateSavings
       (B64.set_nbEmployes (2 * B64.nbEmployes B64.scenario) B64.scenario))
  = (2 * B64.productSavings (B64.calculateSavings B64.scenario))%float
  ∧ B64.productSavings
      (B64.calculateSavings
         (B64.set_frequence (2 * B64.frequence B64.scenario) B64.scenario))
    = (2 * B64.productSavings (B64.calculateSavings B64.scenario))%float.
Proof.
  split.
  - apply (proj1 (proj1 (B64_scaling B64.scenario) eq_refl eq_refl)).
    reflexivity.
  - apply (proj2 (proj1 (B64_scaling B64.scenario) eq_refl eq_refl)).
    reflexivity.
Defined.

(** With 1.1 employees every step of the loop rounds, and doubling still
    doubles: 105.60000000000002 becomes 211.20000000000005. *)
Example B64_doubling_rounded :
  let p := B64.mkParams 1.1 20 5 4 ["crewneck"; "tshirt"; "tshirt"] in
  B64.productSavings (B64.calculateSavings p) = 105.60000000000002%float
  ∧ B64.productSavings
      (B64.calculateSavings (B64.set_nbEmployes (2 * B64.nbEmployes p) p))
    = 211.20000000000005%float
  ∧ B64.productSavings
      (B64.calculateSavings (B64.set_frequence (2 * B64.frequence p) p))
    = 211.20000000000005%float
  ∧ (2 * B64.productSavings (B64.calculateSavings p))%float
    = 211.20000000000005%float.
Proof. intros p. repeat split; by vm_compute. Qed.

(** ** Duplicates *)

(** C7: an identifier selected twice counts twice.  Whatever else is
    selected, the loop adds unit × employees to the running total at each of
    the two occurrences of [id], nothing being deduplicated; and on whole
    requests below 2^53 the product savings are those of the selection
    without the two occurrences plus twice unit × employees × frequency,
    the same number and equal under JavaScript's [==]. *)
Theorem B64_duplicates_count_twice (p : B64.params) (l1 l2 l3 : list string)
    (id : string) :
  let nb := B64.nbEmployes p in
  let once := (B64.unitNew id * nb)%float in
  let twice := B64.set_articles (l1 ++ id :: l2 ++ id :: l3) p in
  B64.productSavings (B64.calculateSavings twice)
  = (B64.running B64.unitNew nb
       (B64.running B64.unitNew nb
          (B64.running B64.unitNew nb 0 l1 + once) l2 + once) l3
     * B64.frequence p)%float
  ∧ ∀ n f : N,
      nb = B64.of_N n → B64.frequence p = B64.of_N f →
      Forall (λ id, inherited id = false) (l1 ++ id :: l2 ++ id :: l3) →
      B64.in_range (l1 ++ id :: l2 ++ id :: l3) n f →
      let without :=
        B64.productSavings
          (B64.calculateSavings (B64.set_articles (l1 ++ l2 ++ l3) p)) in
      B64.productSavings (B64.calculateSavings twice)
      = (without + 2 * (B64.unitNew id * nb * B64.frequence p))%float
      ∧ (B64.productSavings (B64.calculateSavings twice)
         =? without + 2 * (B64.unitNew id * nb * B64.frequence p))%float = true.
Proof.
  intros nb once twice. split.
  - rewrite B64_productSavings_eq. subst twice.
    cbn [B64.set_articles B64.nbEmployes B64.frequence B64.articlesSelectionnes].
    fold nb. rewrite B64_running_app.
    change (B64.running B64.unitNew nb ?a (id :: ?l))
      with (B64.running B64.unitNew nb (a + B64.unitNew id * nb)%float l).
    rewrite B64_running_app.
    change (B64.running B64.unitNew nb ?a (id :: ?l))
      with (B64.running B64.unitNew nb (a + B64.unitNew id * nb)%float l).
    done.
  - intros n f Hn Hf Hl Hr without. subst nb without.
    pose proof (B64_in_range_bounds _ _ _ Hr) as (? & ? & Hun & Hunf).
    assert (inherited id = false) as Hid.
    { apply Forall_app in Hl as [_ Hl]. by apply Forall_cons_1 in Hl as [? _]. }
    assert (Forall (λ id, inherited id = false) (l1 ++ l2 ++ l3)) as Hl'.
    { apply Forall_app in Hl as [? Hl]. apply Forall_cons_1 in Hl as [_ Hl].
      apply Forall_app in Hl as [? Hl]. apply Forall_cons_1 in Hl as [_ Hl].
      by repeat (apply Forall_app; split). }
    pose proof (B64_unit_le id) as Hu.
    set (u := default 0%N (B64.units !! id)) in *.
    assert (B64.unitSum (l1 ++ id :: l2 ++ id :: l3)
            = (B64.unitSum (l1 ++ l2 ++ l3) + 2 * u)%N) as HU.
    { rewrite !B64_unitSum_app. simpl. rewrite !B64_unitSum_app. simpl.
      fold u. lia. }
    rewrite HU in Hun, Hunf.
    apply (of_N_equal _ _ ((B64.unitSum (l1 ++ l2 ++ l3) + 2 * u) * n * f));
      [done|..].
    + rewrite (B64_productSavings_whole twice n f); [|done..].
      subst twice. cbn [B64.set_articles B64.articlesSelectionnes].
      by rewrite HU.
    + rewrite (B64_productSavings_whole _ n f); [|done..|].
      2:{ cbn [B64.set_articles B64.articlesSelectionnes].
          unfold B64.in_range in *. eapply N.le_lt_trans; [|exact Hr].
          do 2 apply N.mul_le_mono_r. rewrite HU. lia. }
      cbn [B64.set_articles B64.articlesSelectionnes].
      rewrite Hn, Hf, B64_unitNew_not_inherited by done. fold u.
      rewrite <- of_N_2.
      rewrite !of_N_mul by (try done; nia). rewrite of_N_add by nia.
      f_equal. lia.
Qed.

Lemma B64_duplicates_count_twice_witness :
  B64.productSavings
    (B64.calculateSavings
       (B64.set_articles ([] ++ "tshirt" :: [] ++ "tshirt" :: ["hoodie"])
          B64.scenario))
  = (B64.productSavings
       (B64.calculateSavings
          (B64.set_articles ([] ++ [] ++ ["hoodie"]) B64.scenario))
     + 2 * (B64.unitNew "tshirt" * B64.nbEmployes B64.scenario
            * B64.frequence B64.scenario))%float.
Proof.
  apply (proj2 (B64_duplicates_count_twice B64.scenario [] [] ["hoodie"] "tshirt")
           10%N 4%N eq_refl eq_refl).
  - by repeat constructor.
  - by vm_compute.
Defined.

(** One t-shirt line gives 280, two give 560. *)
Example B64_tshirt_twice :
  B64.productSavings
    (B64.calculateSavings (B64.mkParams 10 20 5 4 ["tshirt"])) = 280%float
  ∧ B64.productSavings
      (B64.calculateSavings (B64.mkParams 10 20 5 4 ["tshirt"; "tshirt"]))
    = 560%float.
Proof. split; by vm_compute. Qed.

(** The scenario of the specification, and the two boundary requests of the
    product savings, in binary64. *)
Example B64_scenario_result :
  B64.calculateSavings B64.scenario
  = {| B64.adminSavings := 840; B64.productSavings := 760;
       B64.totalSavings := 1600 |}
  ∧ B64.calculerEconomies B64.scenario
    = {| B64.economiesAdmin := 840; B64.economiesProduits := 760;
         B64.totalEconomies := 1600 |}
  ∧ B64.productSavings (B64.calculateSavings (B64.mkParams 10 20 5 4 [])) = 0%float
  ∧ B64.productSavings
      (B64.calculateSavings (B64.mkParams 10 20 5 4 ["toString"])) = nan.
Proof. repeat split; by vm_compute. Qed.

(** * Further properties of the calculators *)

(** ** When the result is a number *)

(** X1: a selection that holds a name defined by [Object.prototype] makes
    the product savings and the total NaN, in both implementations and
    whatever the other fields; with no such name, a finite number of
    employees that is not below 0 and a finite frequency above 0, the
    product savings are not NaN. *)
Theorem B64_NaN_of_inherited_key (p : B64.params) :
  (∀ id, id ∈ B64.articlesSelectionnes p → inherited id = true →
     B64.productSavings (B64.calculateSavings p) = nan
     ∧ B64.totalSavings (B64.calculateSavings p) = nan
     ∧ B64.economiesProduits (B64.calculerEconomies p) = nan
     ∧ B64.totalEconomies (B64.calculerEconomies p) = nan)
  ∧ ((0 <=? B64.nbEmployes p)%float = true →
     (B64.nbEmployes p <? infinity)%float = true →
     (0 <? B64.frequence p)%float = true →
     (B64.frequence p <? infinity)%float = true →
     Forall (λ id, inherited id = false) (B64.articlesSelectionnes p) →
     is_nan (B64.productSavings (B64.calculateSavings p)) = false).
Proof.
  split.
  - intros id Hin Hid.
    assert (B64.productSavings (B64.calculateSavings p) = nan) as Hp.
    { rewrite B64_productSavings_eq, (B64_running_inherited _ _ _ id) by done.
      apply mul_nan_l. }
    assert (B64.totalSavings (B64.calculateSavings p) = nan) as Ht.
    { change (B64.totalSavings (B64.calculateSavings p))
        with (B64.adminSavings (B64.calculateSavings p)
              + B64.productSavings (B64.calculateSavings p))%float.
      rewrite Hp. apply add_nan_r. }
    rewrite B64_calculerEconomies_eq.
    cbn [B64.economiesProduits B64.totalEconomies]. by rewrite Hp, Ht.
  - intros Hnb Hnb' Hf Hf' Hl. unfold is_nan.
    by rewrite nonneg_eqb by by apply B64_productSavings_nonneg.
Qed.

Lemma B64_NaN_of_inherited_key_witness :
  B64.productSavings
    (B64.calculateSavings (B64.mkParams 10 20 5 4 ["tshirt"; "toString"])) = nan
  ∧ is_nan (B64.productSavings (B64.calculateSavings B64.scenario)) = false.
Proof.
  split.
  - apply (proj1 (B64_NaN_of_inherited_key
                    (B64.mkParams 10 20 5 4 ["tshirt"; "toString"])) "toString").
    + set_solver.
    + reflexivity.
  - apply (proj2 (B64_NaN_of_inherited_key B64.scenario));
      first [reflexivity|by repeat constructor].
Defined.

(** ** Sign of the result *)

(** X4: on a request whose four numbers are finite, the number of
    employees, the hourly rate and the monthly hours not below 0 and the
    frequency above 0, and whose selection holds no name defined by
    [Object.prototype], the three fields of [calculateSavings] are numbers
    that are not below 0, +∞ when the arithmetic overflows, and so are the
    three fields of [calculerEconomies]: none is NaN. *)
Theorem B64_savings_nonneg (p : B64.params) :
  (0 <=? B64.nbEmployes p)%float = true →
  (B64.nbEmployes p <? infinity)%float = true →
  (0 <=? B64.tauxHoraire p)%float = true →
  (B64.tauxHoraire p <? infinity)%float = true →
  (0 <=? B64.heuresMensuelles p)%float = true →
  (B64.heuresMensuelles p <? infinity)%float = true →
  (0 <? B64.frequence p)%float = true →
  (B64.frequence p <? infinity)%float = true →
  Forall (λ id, inherited id = false) (B64.articlesSelectionnes p) →
  let r := B64.calculateSavings p in
  let r' := B64.calculerEconomies p in
  ((0 <=? B64.adminSavings r)%float = true
   ∧ (0 <=? B64.productSavings r)%float = true
   ∧ (0 <=? B64.totalSavings r)%float = true)
  ∧ ((0 <=? B64.economiesAdmin r')%float = true
     ∧ (0 <=? B64.economiesProduits r')%float = true
     ∧ (0 <=? B64.totalEconomies r')%float = true).
Proof.
  intros Hnb Hnb' Ht Ht' Hh Hh' Hf Hf' Hl r r'.
  pose proof (B64_adminSavings_nonneg p Hh Hh' Ht Ht') as Ha.
  pose proof (B64_productSavings_nonneg p Hnb Hnb' Hf Hf' Hl) as Hp.
  assert (B64.nonneg_SF (Prim2SF (B64.totalSavings r))) as Htot.
  { change (B64.totalSavings r)
      with (B64.adminSavings r + B64.productSavings r)%float.
    rewrite add_spec. by apply SFadd_nonneg. }
  fold r in Ha, Hp. subst r'. rewrite B64_calculerEconomies_eq. fold r.
  cbn [B64.economiesAdmin B64.economiesProduits B64.totalEconomies].
  repeat split;
    first [by apply nonneg_leb_0|by apply nonneg_leb_0, Math_round_nonneg].
Qed.

Lemma B64_savings_nonneg_witness :
  (0 <=? B64.totalSavings (B64.calculateSavings B64.fractionalRate))%float = true
  ∧ (0 <=? B64.totalEconomies (B64.calculerEconomies B64.fractionalRate))%float
    = true.
Proof.
  destruct (B64_savings_nonneg B64.fractionalRate
              eq_refl eq_refl eq_refl eq_refl eq_refl eq_refl eq_refl eq_refl
              ltac:(by repeat constructor)) as [(_ & _ & H) (_ & _ & H')].
  exact (conj H H').
Defined.

(** The total can be +∞ on such a request: hours and a rate of 1e200. *)
Example B64_overflow :
  B64.calculateSavings (B64.mkParams 10 1e200 1e200 4 ["tshirt"])
  = {| B64.adminSavings := infinity; B64.productSavings := 280;
       B64.totalSavings := infinity |}.
Proof. by vm_compute. Qed.

(** ** Whole requests *)

(** X25: on a whole number of employees and a whole frequency, with no
    selected name defined by [Object.prototype] and amounts below 2^53, the
    loop is exact: the product savings are (Σ unit) × employees × frequency,
    the unit being the table's amount or 0 for an unknown identifier, and the
    older implementation returns the same product savings. *)
Theorem B64_whole_request_exact (p : B64.params) (n f : N) :
  B64.nbEmployes p = B64.of_N n → B64.frequence p = B64.of_N f →
  Forall (λ id, inherited id = false) (B64.articlesSelectionnes p) →
  B64.in_range (B64.articlesSelectionnes p) n f →
  B64.productSavings (B64.calculateSavings p)
  = B64.of_N (B64.unitSum (B64.articlesSelectionnes p) * n * f)
  ∧ B64.economiesProduits (B64.calculerEconomies p)
    = B64.productSavings (B64.calculateSavings p).
Proof.
  intros Hn Hf Hl Hr. pose proof (B64_in_range_bounds _ _ _ Hr) as (? & ? & ? & ?).
  rewrite B64_calculerEconomies_eq. cbn [B64.economiesProduits].
  rewrite (B64_productSavings_whole p n f) by done.
  split; [done|]. by apply Math_round_of_N.
Qed.

Lemma B64_whole_request_exact_witness :
  B64.productSavings (B64.calculateSavings B64.scenario)
  = B64.of_N (B64.unitSum ["tshirt"; "hoodie"] * 10 * 4)
  ∧ B64.economiesProduits (B64.calculerEconomies B64.scenario)
    = B64.productSavings (B64.calculateSavings B64.scenario).
Proof.
  apply (B64_whole_request_exact B64.scenario 10%N 4%N eq_refl eq_refl).
  - by repeat constructor.
  - by vm_compute.
Defined.

(** ** Order and grouping of the selection *)

(** X2: on whole requests below 2^53, the order of the selected identifiers
    plays no part: two selections that are permutations of each other give
    the same result, in both implementations. *)
Theorem B64_order_of_selection_irrelevant (p : B64.params) (n f : N)
    (l' : list string) :
  B64.nbEmployes p = B64.of_N n → B64.frequence p = B64.of_N f →
  Forall (λ id, inherited id = false) (B64.articlesSelectionnes p) →
  B64.in_range (B64.articlesSelectionnes p) n f →
  B64.articlesSelectionnes p ≡ₚ l' →
  B64.calculateSavings (B64.set_articles l' p) = B64.calculateSavings p
  ∧ B64.calculerEconomies (B64.set_articles l' p) = B64.calculerEconomies p.
Proof.
  intros Hn Hf Hl Hr Hperm.
  assert (B64.productSavings (B64.calculateSavings (B64.set_articles l' p))
          = B64.productSavings (B64.calculateSavings p)) as Hp.
  { rewrite (B64_productSavings_whole p n f) by done.
    rewrite (B64_productSavings_whole _ n f); try done.
    - cbn [B64.set_articles B64.articlesSelectionnes].
      by rewrite (B64_unitSum_Permutation _ _ Hperm).
    - cbn [B64.set_articles B64.articlesSelectionnes]. by rewrite <- Hperm.
    - cbn [B64.set_articles B64.articlesSelectionnes]. unfold B64.in_range in *.
      by rewrite <- (B64_unitSum_Permutation _ _ Hperm). }
  assert (B64.calculateSavings (B64.set_articles l' p) = B64.calculateSavings p)
    as Hnew.
  { rewrite (B64_calculateSavings_eq p), (B64_calculateSavings_eq (B64.set_articles l' p)).
    cbv zeta. rewrite <- !B64_productSavings_eq, Hp. reflexivity. }
  split; [done|]. by rewrite !B64_calculerEconomies_eq, Hnew.
Qed.

Lemma B64_order_of_selection_irrelevant_witness :
  B64.calculateSavings (B64.set_articles ["hoodie"; "tshirt"] B64.scenario)
  = B64.calculateSavings B64.scenario
  ∧ B64.calculerEconomies (B64.set_articles ["hoodie"; "tshirt"] B64.scenario)
    = B64.calculerEconomies B64.scenario.
Proof.
  apply (B64_order_of_selection_irrelevant B64.scenario 10%N 4%N
           ["hoodie"; "tshirt"] eq_refl eq_refl).
  - by repeat constructor.
  - by vm_compute.
  - apply perm_swap.
Defined.

(** It does matter outside: with 1.1 employee the selections
    t-shirt, crewneck, coat and coat, crewneck, t-shirt differ in the last
    place. *)
Example B64_order_matters :
  B64.productSavings
    (B64.calculateSavings (B64.mkParams 1.1 20 5 4 ["tshirt"; "crewneck"; "manteau"]))
  = 294.80000000000007%float
  ∧ B64.productSavings
      (B64.calculateSavings (B64.mkParams 1.1 20 5 4 ["manteau"; "crewneck"; "tshirt"]))
    = 294.80000000000001%float
  ∧ 294.80000000000007%float ≠ 294.80000000000001%float.
Proof. split; [by vm_compute|]. split; [by vm_compute|]. apply float_neq; by vm_compute. Qed.

(** X3: on whole requests below 2^53, the product savings of a selection
    made of two parts are the sum of the product savings of the parts. *)
Theorem B64_productSavings_app (p : B64.params) (n f : N) (l1 l2 : list string) :
  B64.nbEmployes p = B64.of_N n → B64.frequence p = B64.of_N f →
  Forall (λ id, inherited id = false) (l1 ++ l2) →
  B64.in_range (l1 ++ l2) n f →
  B64.productSavings (B64.calculateSavings (B64.set_articles (l1 ++ l2) p))
  = (B64.productSavings (B64.calculateSavings (B64.set_articles l1 p))
     + B64.productSavings (B64.calculateSavings (B64.set_articles l2 p)))%float.
Proof.
  intros Hn Hf [Hl1 Hl2]%Forall_app Hr.
  pose proof (B64_in_range_bounds _ _ _ Hr) as (? & ? & Hun & Hunf).
  rewrite B64_unitSum_app in Hun, Hunf.
  assert (B64.in_range l1 n f ∧ B64.in_range l2 n f) as [Hr1 Hr2].
  { unfold B64.in_range in *. rewrite B64_unitSum_app in Hr.
    split; (eapply N.le_lt_trans; [|exact Hr]); do 2 apply N.mul_le_mono_r; lia. }
  rewrite !(B64_productSavings_whole _ n f); try done.
  - cbn [B64.set_articles B64.articlesSelectionnes].
    rewrite of_N_add by nia. rewrite B64_unitSum_app. f_equal. lia.
  - cbn [B64.set_articles B64.articlesSelectionnes]. by apply Forall_app.
Qed.

Lemma B64_productSavings_app_witness :
  B64.productSavings
    (B64.calculateSavings (B64.set_articles (["tshirt"] ++ ["hoodie"]) B64.scenario))
  = (B64.productSavings
       (B64.calculateSavings (B64.set_articles ["tshirt"] B64.scenario))
     + B64.productSavings
         (B64.calculateSavings (B64.set_articles ["hoodie"] B64.scenario)))%float.
Proof.
  apply (B64_productSavings_app B64.scenario 10%N 4%N ["tshirt"] ["hoodie"]
           eq_refl eq_refl).
  - by repeat constructor.
  - by vm_compute.
Defined.

(** ** Homogeneity *)

(** X5: on whole requests below 2^53, multiplying the number of employees
    (or the frequency) by a whole [k] multiplies the product savings by [k],
    as long as the multiplied amounts stay below 2^53 too. *)
Theorem B64_productSavings_homogeneous (p : B64.params) (k n f : N) :
  B64.nbEmployes p = B64.of_N n → B64.frequence p = B64.of_N f →
  Forall (λ id, inherited id = false) (B64.articlesSelectionnes p) →
  B64.in_range (B64.articlesSelectionnes p) n f → (k < 2 ^ 53)%N →
  (B64.in_range (B64.articlesSelectionnes p) (k * n) f →
   B64.productSavings
     (B64.calculateSavings
        (B64.set_nbEmployes (B64.of_N k * B64.nbEmployes p) p))
   = (B64.of_N k * B64.productSavings (B64.calculateSavings p))%float)
  ∧ (B64.in_range (B64.articlesSelectionnes p) n (k * f) →
     B64.productSavings
       (B64.calculateSavings
          (B64.set_frequence (B64.of_N k * B64.frequence p) p))
     = (B64.of_N k * B64.productSavings (B64.calculateSavings p))%float).
Proof.
  intros Hn Hf Hl Hr0 Hk.
  pose proof (B64_in_range_bounds _ _ _ Hr0) as (? & ? & ? & ?).
  rewrite (B64_productSavings_whole p n f) by done. rewrite Hn, Hf.
  split; intros Hr; pose proof (B64_in_range_bounds _ _ _ Hr) as (? & ? & ? & ?).
  - rewrite of_N_mul by done.
    rewrite (B64_productSavings_whole _ (k * n) f) by done.
    cbn [B64.set_nbEmployes B64.articlesSelectionnes].
    rewrite of_N_mul by (try done; lia). f_equal. lia.
  - rewrite of_N_mul by done.
    rewrite (B64_productSavings_whole _ n (k * f)) by done.
    cbn [B64.set_frequence B64.articlesSelectionnes].
    rewrite of_N_mul by (try done; lia). f_equal. lia.
Qed.

Lemma B64_productSavings_homogeneous_witness :
  B64.productSavings
    (B64.calculateSavings
       (B64.set_nbEmployes (B64.of_N 3 * B64.nbEmployes B64.scenario) B64.scenario))
  = (B64.of_N 3 * B64.productSavings (B64.calculateSavings B64.scenario))%float.
Proof.
  apply (proj1 (B64_productSavings_homogeneous B64.scenario 3%N 10%N 4%N
                  eq_refl eq_refl ltac:(by repeat constructor)
                  ltac:(by vm_compute) ltac:(by vm_compute))).
  by vm_compute.
Defined.

(** * The controllers *)

(** ** The tests of the validators *)

Lemma this_plus (x y : Qc) : (this (x + y) == this x + this y)%Q.
Proof. simpl. apply Qred_correct. Qed.

Lemma this_opp (x : Qc) : (this (- x) == - this x)%Q.
Proof. simpl. apply Qred_correct. Qed.

(** Linear order facts on [Qc], sent to [Q]. *)
Ltac qc_order :=
  repeat match goal with
         | H : ?x = Q2Qc _ |- _ => subst x
         end;
  unfold Qcle, Qclt, Qcminus in *;
  repeat match goal with
         | H : context [this (_ + _)] |- _ => rewrite this_plus in H
         | H : context [this (- _)] |- _ => rewrite this_opp in H
         | |- context [this (_ + _)] => rewrite this_plus
         | |- context [this (- _)] => rewrite this_opp
         end;
  cbn [this Q2Qc] in *;
  repeat match goal with
         | |- context [Qred ?q] =>
             let v := eval vm_compute in (Qred q) in
             progress change (Qred q) with v
         | H : context [Qred ?q] |- _ =>
             let v := eval vm_compute in (Qred q) in
             progress change (Qred q) with v in H
         end;
  first [lra | exfalso; lra].

Lemma js_lt_false_iff (a : number) (b : Qc) :
  isNaN a || js_lt a (Num b) = false ↔ ∃ q, a = Num q ∧ b ≤ q.
Proof.
  destruct a as [x|]; simpl.
  - rewrite bool_decide_eq_false, <- Qcle_ngt. split; [by exists x|].
    by intros (q & [= <-] & Hq).
  - split; [done|]. by intros (q & ? & _).
Qed.

Lemma positive_test_false_iff (a : number) :
  js_not a || js_le a (Num 0) || isNaN a = false ↔ ∃ q, a = Num q ∧ 0 < q.
Proof.
  destruct a as [x|]; unfold js_not, js_le, isNaN, ToBoolean.
  - rewrite negb_involutive, orb_false_r.
    repeat case_bool_decide; simpl;
      (split; [intros ?; first [done|exists x; split; [done|]; qc_order]
              |intros (q & [= <-] & Hq); first [done|qc_order]]).
  - split; [done|]. by intros (q & ? & _).
Qed.

Lemma positive_test_comm (a : number) :
  js_not a || isNaN a || js_le a (Num 0) = js_not a || js_le a (Num 0) || isNaN a.
Proof. by destruct (js_not a), (isNaN a), (js_le a (Num 0)). Qed.

Lemma at_least_one_test_false_iff (a : number) :
  js_not a || isNaN a || js_lt a (Num 1) = false ↔ ∃ q, a = Num q ∧ 1 ≤ q.
Proof.
  destruct a as [x|]; unfold js_not, js_lt, isNaN, ToBoolean.
  - rewrite negb_involutive, orb_false_r.
    repeat case_bool_decide; simpl;
      (split; [intros ?; first [done|exists x; split; [done|]; qc_order]
              |intros (q & [= <-] & Hq); first [done|qc_order]]).
  - split; [done|]. by intros (q & ? & _).
Qed.

(** ** The answer of the older validator *)

Lemma validerFormulaire_fst fd l d :
  (OldMain.validerFormulaire fd l d).1
  = negb (js_not (Form.nbEmployes fd) || isNaN (Form.nbEmployes fd)
          || js_lt (Form.nbEmployes fd) (Num 1))
    && negb (isNaN (Form.tauxHoraire fd) || js_lt (Form.tauxHoraire fd) (Num 0))
    && negb (isNaN (Form.heuresMensuelles fd)
             || js_lt (Form.heuresMensuelles fd) (Num 0))
    && negb (js_not (Form.frequence fd) || isNaN (Form.frequence fd)
             || js_le (Form.frequence fd) (Num 0))
    && negb (bool_decide (length l = 0%nat)).
Proof.
  unfold OldMain.validerFormulaire.
  destruct (js_not (Form.nbEmployes fd) || _ || _);
    destruct (isNaN (Form.tauxHoraire fd) || _);
    destruct (isNaN (Form.heuresMensuelles fd) || _);
    destruct (js_not (Form.frequence fd) || _ || _);
    destruct (bool_decide (length l = 0%nat)); reflexivity.
Qed.

(** ** The error helpers *)

Lemma setFieldError_shows c m : tidy c → shows (NewMain.setFieldError c m) (Some m).
Proof.
  intros (found & Hg & Hlen). unfold NewMain.setFieldError. rewrite Hg. simpl.
  split; [set_solver|]. split; [apply lookup_insert_eq|].
  destruct found as [|e [|e' found]]; simpl in *; [by eexists|by eexists|lia].
Qed.

Lemma clearFieldError_shows c : tidy c → shows (NewMain.clearFieldError c) None.
Proof.
  intros (found & Hg & Hlen). unfold NewMain.clearFieldError. rewrite Hg. simpl.
  split; [set_solver|]. split; [apply lookup_delete_eq|].
  destruct found as [|e [|e' found]]; simpl in *; [done|done|lia].
Qed.

Lemma shows_tidy c m : shows c m → tidy c.
Proof.
  destruct m as [m|]; simpl.
  - intros (_ & _ & e & Hg & _). exists [e]. by split.
  - intros (_ & _ & Hg). exists []. split; [done|simpl; lia].
Qed.

Lemma element_eq (e e' : element) :
  classList e = classList e' → attributes e = attributes e' →
  textContent e = textContent e' → e = e'.
Proof. destruct e, e'; simpl. by intros -> -> ->. Qed.

Lemma clearFieldError_clean c : shows c None → NewMain.clearFieldError c = c.
Proof.
  intros (Hcl & Hat & Hg). unfold NewMain.clearFieldError. rewrite Hg.
  destruct c as [e g]; simpl in *. subst g. f_equal.
  apply element_eq; simpl; [set_solver|by apply delete_id|done].
Qed.

(** X10: on a control whose group holds at most one message,
    [setFieldError] leaves it flagged with exactly one message, the given
    one, however often it is called; [clearFieldError] leaves it clean;
    clearing a clean control changes nothing, and clearing after setting an
    error on a clean control restores it.  A control outside any form group
    is left untouched by both. *)
Theorem field_error_helpers (c : control) (m m' : string) :
  (tidy c →
   shows (NewMain.setFieldError c m) (Some m)
   ∧ shows (NewMain.setFieldError (NewMain.setFieldError c m') m) (Some m)
   ∧ shows (NewMain.clearFieldError c) None
   ∧ (shows c None →
      NewMain.clearFieldError c = c
      ∧ NewMain.clearFieldError (NewMain.setFieldError c m) = c))
  ∧ (group c = None →
     NewMain.setFieldError c m = c ∧ NewMain.clearFieldError c = c).
Proof.
  split.
  - intros Hc. split; [by apply setFieldError_shows|].
    split; [eapply setFieldError_shows, shows_tidy, setFieldError_shows, Hc|].
    split; [by apply clearFieldError_shows|].
    intros Hclean. split; [by apply clearFieldError_clean|].
    destruct Hclean as (Hcl & Hat & Hg).
    unfold NewMain.clearFieldError, NewMain.setFieldError. rewrite Hg. simpl.
    destruct c as [e g]; simpl in *. subst g. f_equal.
    apply element_eq; simpl; [set_solver|by apply delete_insert_id|done].
  - intros Hg. unfold NewMain.setFieldError, NewMain.clearFieldError.
    by rewrite Hg.
Qed.

(** ** What the validator leaves on the page *)

Lemma positive_test (a : number) :
  js_not a || js_le a (Num 0) || isNaN a = negb (js_gt a (Num 0)).
Proof.
  destruct (js_not a || js_le a (Num 0) || isNaN a) eqn:Ha.
  - destruct a as [x|]; [|done]. unfold js_gt, js_lt.
    case_bool_decide as Hx; [|done].
    assert (js_not (Num x) || js_le (Num x) (Num 0) || isNaN (Num x) = false)
      as Hf by (apply positive_test_false_iff; by exists x).
    congruence.
  - apply positive_test_false_iff in Ha as (q & -> & Hq).
    unfold js_gt, js_lt. by rewrite bool_decide_eq_true_2.
Qed.

Lemma nonneg_test (a : number) :
  isNaN a || js_lt a (Num 0) = negb (js_ge a (Num 0)).
Proof.
  destruct (isNaN a || js_lt a (Num 0)) eqn:Ha.
  - destruct a as [x|]; [|done]. unfold js_ge, js_le.
    case_bool_decide as Hx; [|done].
    assert (isNaN (Num x) || js_lt (Num x) (Num 0) = false)
      as Hf by (apply js_lt_false_iff; by exists x).
    congruence.
  - apply js_lt_false_iff in Ha as (q & -> & Hq).
    unfold js_ge, js_le. by rewrite bool_decide_eq_true_2.
Qed.

(** ** The selected products *)

(** X12: the selection read from the checkboxes holds exactly the values of
    the checked boxes, in their order; it is empty exactly when no box is
    checked, and has no duplicate when the boxes have distinct values.  The
    older [lireArticlesSelectionnes] reads the same list. *)
Theorem selection_of_checked_boxes (boxes : list checkbox) :
  (∀ x, x ∈ NewMain.getSelectedProducts boxes
        ↔ ∃ cb, cb ∈ boxes ∧ checked cb = true ∧ value cb = x)
  ∧ NewMain.getSelectedProducts boxes `sublist_of` map value boxes
  ∧ (NewMain.getSelectedProducts boxes = []
     ↔ ∀ cb, cb ∈ boxes → checked cb = false)
  ∧ (NoDup (map value boxes) → NoDup (NewMain.getSelectedProducts boxes))
  ∧ OldMain.lireArticlesSelectionnes boxes = NewMain.getSelectedProducts boxes.
Proof.
  unfold NewMain.getSelectedProducts, OldMain.lireArticlesSelectionnes.
  change (map value) with (fmap (M:=list) value).
  assert (filter (λ cb, checked cb = true) boxes `sublist_of` boxes) as Hsub
    by apply sublist_filter.
  assert (value <$> filter (λ cb, checked cb = true) boxes
            `sublist_of` value <$> boxes) as Hsub'
    by (by apply fmap_sublist).
  split; [|split; [done|split; [|split]]].
  - intros x. rewrite list_elem_of_fmap. split.
    + intros (cb & Hv & Hin). exists cb.
      apply list_elem_of_filter in Hin as [Hc Hin]. by repeat split.
    + intros (cb & Hin & Hc & Hv). exists cb. split; [done|].
      apply list_elem_of_filter. by split.
  - split.
    + intros Hnil%fmap_nil_inv cb Hin. destruct (checked cb) eqn:Hc; [|done].
      assert (cb ∈ filter (λ cb, checked cb = true) boxes) as Hf
        by (apply list_elem_of_filter; by split).
      rewrite Hnil in Hf. by apply elem_of_nil in Hf.
    + intros Hall. clear Hsub Hsub'. induction boxes as [|cb boxes IH]; [done|].
      rewrite filter_cons_False.
      * apply IH. intros cb' Hin. apply Hall. by apply elem_of_cons; right.
      * rewrite (Hall cb); [done|]. apply elem_of_cons; by left.
  - intros Hnd. by eapply sublist_NoDup.
  - done.
Qed.

Lemma selection_of_checked_boxes_witness :
  NoDup (NewMain.getSelectedProducts
           [ {| checked := true; value := "tshirt" |};
             {| checked := false; value := "hoodie" |};
             {| checked := true; value := "tuque" |} ]).
Proof.
  apply (proj1 (proj2 (proj2 (proj2 (selection_of_checked_boxes _))))).
  apply (bool_decide_unpack _). vm_compute. exact I.
Defined.

(** ** Product cards *)

Lemma elem_of_toggle (cls c : string) (b : bool) (e : element) :
  cls ∈ classList (classList_toggle c b e)
  ↔ (cls = c ∧ b = true) ∨ (cls ≠ c ∧ cls ∈ classList e).
Proof.
  destruct b; cbn [classList_toggle classList_add classList_remove classList].
  - rewrite elem_of_union, elem_of_singleton.
    destruct (decide (cls = c)); naive_solver.
  - rewrite elem_of_difference, elem_of_singleton. naive_solver.
Qed.

Lemma toggle_twice_in_sync (e : element) (b : bool) :
  ("is-selected" ∈ classList e ↔ b = true) →
  classList_toggle "is-selected" b (classList_toggle "is-selected" (negb b) e) = e.
Proof.
  intros Hsync. apply element_eq; [|by destruct b..].
  apply set_eq. intros cls. rewrite !elem_of_toggle.
  destruct (decide (cls = "is-selected")) as [->|Hne]; [|naive_solver].
  rewrite Hsync. naive_solver.
Qed.

(** X16: a click on a product card, outside its checkbox, flips the checkbox
    and leaves the card's [is-selected] class in step with it; the change
    listener does the same without flipping; a click whose target is the
    checkbox is ignored by the card's listener.  No other class of the card
    is touched, and two clicks on a card that was in step restore it. *)
Theorem card_follows_checkbox (c : OldMain.productCard) (cb : checkbox) :
  OldMain.cardCheckbox c = Some cb →
  let c1 := OldMain.onCardClick false c in
  let c2 := OldMain.onCheckboxChange c in
  OldMain.cardCheckbox c1
  = Some {| checked := negb (checked cb); value := value cb |}
  ∧ ("is-selected" ∈ classList (OldMain.card c1) ↔ negb (checked cb) = true)
  ∧ OldMain.cardCheckbox c2 = Some cb
  ∧ ("is-selected" ∈ classList (OldMain.card c2) ↔ checked cb = true)
  ∧ OldMain.onCardClick true c = c
  ∧ (∀ cls, cls ≠ "is-selected" →
       (cls ∈ classList (OldMain.card c1) ↔ cls ∈ classList (OldMain.card c))
       ∧ (cls ∈ classList (OldMain.card c2) ↔ cls ∈ classList (OldMain.card c)))
  ∧ (("is-selected" ∈ classList (OldMain.card c) ↔ checked cb = true) →
     OldMain.onCardClick false c1 = c).
Proof.
  intros Hcb c1 c2. subst c1 c2.
  unfold OldMain.onCardClick, OldMain.onCheckboxChange. rewrite Hcb.
  cbn [OldMain.cardCheckbox OldMain.card checked value].
  destruct c as [e ocb]; cbn [OldMain.cardCheckbox OldMain.card] in *. subst ocb.
  destruct cb as [b v]; cbn [checked value].
  split; [done|]. split; [rewrite elem_of_toggle; naive_solver|].
  split; [done|]. split; [rewrite elem_of_toggle; naive_solver|].
  split; [done|]. split.
  - intros cls Hne. rewrite !elem_of_toggle. naive_solver.
  - intros Hsync. rewrite negb_involutive. f_equal.
    by apply (toggle_twice_in_sync e b).
Qed.

(** ** The counter animation *)

Lemma easeOutCubic_Num q :
  OldMain.easeOutCubic (Num q) = Num (1 - (1 - q) ^ 3).
Proof. reflexivity. Qed.

Lemma Qcmult_le_mono (a b c d : Qc) :
  0 ≤ a → a ≤ b → 0 ≤ c → c ≤ d → a * c ≤ b * d.
Proof.
  intros Ha Hab Hc Hcd. trans (b * c).
  - by apply Qcmult_le_compat_r.
  - rewrite !(Qcmult_comm b). apply Qcmult_le_compat_r; [done|]. by trans a.
Qed.

Lemma cube_mono (a b : Qc) : 0 ≤ a → a ≤ b → a ^ 3 ≤ b ^ 3.
Proof.
  intros Ha Hab. simpl. rewrite !Qcmult_1_r.
  apply Qcmult_le_mono; try done.
  - by apply Qcmult_nonneg_nonneg.
  - by apply Qcmult_le_mono.
Qed.

Lemma ease_mono (q1 q2 : Qc) :
  q1 ≤ q2 → q2 ≤ 1 → 1 - (1 - q1) ^ 3 ≤ 1 - (1 - q2) ^ 3.
Proof.
  intros H12 H2.
  assert ((1 - q2) ^ 3 ≤ (1 - q1) ^ 3) as Hc by (apply cube_mono; qc_order).
  revert Hc. generalize ((1 - q2) ^ 3) ((1 - q1) ^ 3). intros c2 c1 Hc. qc_order.
Qed.

Lemma ease_0 : 1 - (1 - 0) ^ 3 = 0.
Proof. by apply Qc_is_canon. Qed.

Lemma ease_1 : 1 - (1 - 1) ^ 3 = 1.
Proof. by apply Qc_is_canon. Qed.

(** X17: [easeOutCubic] sends 0 to 0 and 1 to 1, never leaves the interval
    from 0 to 1 on a progress in that interval, and never decreases when the
    progress grows. *)
Theorem easeOutCubic_curve :
  OldMain.easeOutCubic (Num 0) = Num 0
  ∧ OldMain.easeOutCubic (Num 1) = Num 1
  ∧ (∀ q1 q2 : Qc, 0 ≤ q1 → q1 ≤ q2 → q2 ≤ 1 →
       ∃ e1 e2 : Qc,
         OldMain.easeOutCubic (Num q1) = Num e1
         ∧ OldMain.easeOutCubic (Num q2) = Num e2
         ∧ 0 ≤ e1 ∧ e1 ≤ e2 ∧ e2 ≤ 1)
  ∧ (∀ t, NewMain.easeOutCubic t = OldMain.easeOutCubic t).
Proof.
  rewrite !easeOutCubic_Num, ease_0, ease_1.
  split; [done|]. split; [done|]. split; [|done].
  intros q1 q2 H1 H12 H2. eexists _, _. rewrite !easeOutCubic_Num.
  split; [done|]. split; [done|].
  split; [|split].
  - rewrite <- ease_0. apply ease_mono; [done|by trans q2].
  - by apply ease_mono.
  - rewrite <- ease_1 at 3. apply ease_mono; [done|apply Qcle_refl].
Qed.

Lemma easeOutCubic_curve_witness :
  ∃ e1 e2 : Qc,
    OldMain.easeOutCubic (Num (Q2Qc 0.25)) = Num e1
    ∧ OldMain.easeOutCubic (Num (Q2Qc 0.5)) = Num e2
    ∧ 0 ≤ e1 ∧ e1 ≤ e2 ∧ e2 ≤ 1.
Proof.
  apply (proj1 (proj2 (proj2 easeOutCubic_curve))); by vm_compute.
Defined.

(** ** The properties above, on concrete pages and runs *)

Lemma field_error_helpers_witness :
  shows (NewMain.setFieldError (freshControl "input") "message") (Some "message")
  ∧ NewMain.clearFieldError (NewMain.setFieldError (freshControl "input") "message")
    = freshControl "input".
Proof.
  destruct (field_error_helpers (freshControl "input") "message" "message")
    as [H _].
  destruct H as (H1 & _ & _ & H4).
  - exists []. split; [reflexivity|simpl; lia].
  - split; [exact H1|]. apply H4.
    split; [apply not_elem_of_empty|]. split; reflexivity.
Defined.

Lemma card_follows_checkbox_witness :
  let c := {| OldMain.card := createElement "div";
              OldMain.cardCheckbox :=
                Some {| checked := false; value := "tshirt" |} |} in
  OldMain.cardCheckbox (OldMain.onCardClick false c)
  = Some {| checked := true; value := "tshirt" |}
  ∧ ("is-selected" ∈ classList (OldMain.card (OldMain.onCardClick false c))
     ↔ true = true).
Proof.
  intros c.
  destruct (card_follows_checkbox c {| checked := false; value := "tshirt" |})
    as (H1 & H2 & _); [reflexivity|].
  split; [exact H1|exact H2].
Defined.

(** ** The older controller *)

Lemma afficherErreurChamp_shows c m :
  tidy c → shows (OldMain.afficherErreurChamp c m) (Some m).
Proof.
  intros (found & Hg & Hlen). unfold OldMain.afficherErreurChamp. rewrite Hg.
  simpl. split; [set_solver|]. split; [apply lookup_insert_eq|].
  destruct found as [|e [|e' found]]; simpl in *; [by eexists|by eexists|lia].
Qed.

Lemma effacerErreurChamp_shows c :
  tidy c → shows (OldMain.effacerErreurChamp c) None.
Proof.
  intros (found & Hg & Hlen). unfold OldMain.effacerErreurChamp. rewrite Hg.
  simpl. split; [set_solver|]. split; [apply lookup_delete_eq|].
  destruct found as [|e [|e' found]]; simpl in *; [done|done|lia].
Qed.

Lemma validerFormulaire_snd fd l d :
  (OldMain.validerFormulaire fd l d).2
  = {| OldMain.inputNbEmployes :=
         if js_not (Form.nbEmployes fd) || isNaN (Form.nbEmployes fd)
            || js_lt (Form.nbEmployes fd) (Num 1)
         then OldMain.afficherErreurChamp (OldMain.inputNbEmployes d)
                "Veuillez entrer un nombre d'employés valide (minimum 1)."
         else OldMain.effacerErreurChamp (OldMain.inputNbEmployes d);
       OldMain.inputTauxHoraire :=
         if isNaN (Form.tauxHoraire fd) || js_lt (Form.tauxHoraire fd) (Num 0)
         then OldMain.afficherErreurChamp (OldMain.inputTauxHoraire d)
                "Veuillez entrer un taux horaire valide (0 $ ou plus)."
         else OldMain.effacerErreurChamp (OldMain.inputTauxHoraire d);
       OldMain.inputHeures :=
         if isNaN (Form.heuresMensuelles fd)
            || js_lt (Form.heuresMensuelles fd) (Num 0)
         then OldMain.afficherErreurChamp (OldMain.inputHeures d)
                "Veuillez entrer un nombre d'heures valide (0 ou plus)."
         else OldMain.effacerErreurChamp (OldMain.inputHeures d);
       OldMain.selectFrequence :=
         if js_not (Form.frequence fd) || isNaN (Form.frequence fd)
            || js_le (Form.frequence fd) (Num 0)
         then OldMain.afficherErreurChamp (OldMain.selectFrequence d)
                "Veuillez sélectionner une fréquence de commande."
         else OldMain.effacerErreurChamp (OldMain.selectFrequence d);
       OldMain.productsError :=
         if bool_decide (length l = 0%nat)
         then removeAttribute "hidden"
                (set_textContent
                   "Veuillez sélectionner au moins un type d'article."
                   (OldMain.productsError d))
         else setAttribute "hidden" "" (OldMain.productsError d) |}.
Proof.
  unfold OldMain.validerFormulaire.
  destruct (js_not (Form.nbEmployes fd) || _ || _);
    destruct (isNaN (Form.tauxHoraire fd) || _);
    destruct (isNaN (Form.heuresMensuelles fd) || _);
    destruct (js_not (Form.frequence fd) || _ || _);
    destruct (bool_decide (length l = 0%nat)); reflexivity.
Qed.

Lemma at_least_one_test (a : number) :
  js_not a || isNaN a || js_lt a (Num 1) = negb (js_ge a (Num 1)).
Proof.
  destruct (js_not a || isNaN a || js_lt a (Num 1)) eqn:Ha.
  - destruct a as [x|]; [|done]. unfold js_ge, js_le.
    case_bool_decide as Hx; [|done].
    assert (js_not (Num x) || isNaN (Num x) || js_lt (Num x) (Num 1) = false)
      as Hf by (apply at_least_one_test_false_iff; by exists x).
    congruence.
  - apply at_least_one_test_false_iff in Ha as (q & -> & Hq).
    unfold js_ge, js_le. by rewrite bool_decide_eq_true_2.
Qed.

Lemma shows_if_old (b : bool) c m :
  tidy c →
  shows (if b then OldMain.afficherErreurChamp c m
         else OldMain.effacerErreurChamp c)
        (if negb b then None else Some m).
Proof.
  intros Hc. destruct b; simpl;
    [by apply afficherErreurChamp_shows|by apply effacerErreurChamp_shows].
Qed.

(** X21: the older [validerFormulaire] reports every invalid field at once
    too: on a page whose four controls each stand in a group with at most
    one message, each control ends flagged with its message when its test
    fails and clean when it passes; the products error element is hidden
    exactly when a product is selected, and carries its message when none
    is. *)
Theorem validerFormulaire_display (fd : Form.formData) (l : list string)
    (d : OldMain.page) :
  tidy (OldMain.inputNbEmployes d) → tidy (OldMain.inputTauxHoraire d) →
  tidy (OldMain.inputHeures d) → tidy (OldMain.selectFrequence d) →
  let d' := (OldMain.validerFormulaire fd l d).2 in
  shows (OldMain.inputNbEmployes d')
    (if js_ge (Form.nbEmployes fd) (Num 1) then None
     else Some "Veuillez entrer un nombre d'employés valide (minimum 1).")
  ∧ shows (OldMain.inputTauxHoraire d')
      (if js_ge (Form.tauxHoraire fd) (Num 0) then None
       else Some "Veuillez entrer un taux horaire valide (0 $ ou plus).")
  ∧ shows (OldMain.inputHeures d')
      (if js_ge (Form.heuresMensuelles fd) (Num 0) then None
       else Some "Veuillez entrer un nombre d'heures valide (0 ou plus).")
  ∧ shows (OldMain.selectFrequence d')
      (if js_gt (Form.frequence fd) (Num 0) then None
       else Some "Veuillez sélectionner une fréquence de commande.")
  ∧ (is_Some (attributes (OldMain.productsError d') !! "hidden") ↔ l ≠ [])
  ∧ (l = [] →
     textContent (OldMain.productsError d')
     = "Veuillez sélectionner au moins un type d'article.").
Proof.
  intros H1 H2 H3 H4 d'. subst d'. rewrite validerFormulaire_snd.
  rewrite positive_test_comm, at_least_one_test, positive_test, !nonneg_test.
  pose proof (shows_if_old (negb (js_ge (Form.nbEmployes fd) (Num 1))) _
    "Veuillez entrer un nombre d'employés valide (minimum 1)." H1) as S1.
  pose proof (shows_if_old (negb (js_ge (Form.tauxHoraire fd) (Num 0))) _
    "Veuillez entrer un taux horaire valide (0 $ ou plus)." H2) as S2.
  pose proof (shows_if_old (negb (js_ge (Form.heuresMensuelles fd) (Num 0))) _
    "Veuillez entrer un nombre d'heures valide (0 ou plus)." H3) as S3.
  pose proof (shows_if_old (negb (js_gt (Form.frequence fd) (Num 0))) _
    "Veuillez sélectionner une fréquence de commande." H4) as S4.
  rewrite negb_involutive in S1, S2, S3, S4.
  cbn [OldMain.inputNbEmployes OldMain.inputTauxHoraire OldMain.inputHeures
       OldMain.selectFrequence OldMain.productsError].
  split; [done|]. split; [done|]. split; [done|]. split; [done|].
  destruct l as [|id l]; cbn [length bool_decide decide_rel].
  - rewrite bool_decide_eq_true_2 by done.
    cbn [removeAttribute set_textContent attributes textContent].
    rewrite lookup_delete_eq. split; [|done]. split; [by intros [? ?]|done].
  - rewrite bool_decide_eq_false_2 by done.
    cbn [setAttribute attributes]. rewrite lookup_insert_eq.
    split; [|done]. split; [done|by eexists].
Qed.

Lemma validerFormulaire_display_witness :
  let d' := (OldMain.validerFormulaire scenarioForm ["tshirt"] freshOldPage).2 in
  shows (OldMain.inputNbEmployes d') None
  ∧ (is_Some (attributes (OldMain.productsError d') !! "hidden")
     ↔ ["tshirt"] ≠ []).
Proof.
  intros d'.
  destruct (validerFormulaire_display scenarioForm ["tshirt"] freshOldPage)
    as (S1 & _ & _ & _ & S5 & _).
  1-4: exists []; split; [reflexivity|simpl; lia].
  split; [exact S1|exact S5].
Defined.

(** ** What the validators test *)

(** X8: the older [validerFormulaire] accepts a form exactly when the number
    of employees is at least 1, the hourly rate and the monthly hours are at
    least 0, the frequency is above 0 and a product is selected, each
    comparison being JavaScript's, false on NaN: the [!x] and [isNaN(x)]
    tests of the function change nothing, and the page it starts from plays
    no part. *)
Theorem validerFormulaire_accepts (fd : Form.formData) (l : list string)
    (d : OldMain.page) :
  (OldMain.validerFormulaire fd l d).1
  = js_ge (Form.nbEmployes fd) (Num 1) && js_ge (Form.tauxHoraire fd) (Num 0)
    && js_ge (Form.heuresMensuelles fd) (Num 0)
    && js_gt (Form.frequence fd) (Num 0) && negb (bool_decide (l = [])).
Proof.
  rewrite validerFormulaire_fst.
  rewrite positive_test_comm, at_least_one_test, positive_test, !nonneg_test.
  rewrite !negb_involutive. do 2 f_equal. by destruct l.
Qed.

(** X9: [areMainFieldsValid] holds exactly when the number of employees is
    above 0 and the other two are at least 0, its three [isNaN] tests
    changing nothing, and [updateButtonState] disables the button exactly
    otherwise; a form that the older validator accepts leaves the button
    enabled. *)
Theorem areMainFieldsValid_tests (nb taux heures : number) :
  NewMain.areMainFieldsValid nb taux heures
  = js_gt nb (Num 0) && js_ge taux (Num 0) && js_ge heures (Num 0)
  ∧ NewMain.updateButtonState nb taux heures
    = negb (js_gt nb (Num 0) && js_ge taux (Num 0) && js_ge heures (Num 0))
  ∧ (js_ge nb (Num 1) && js_ge taux (Num 0) && js_ge heures (Num 0) = true →
     NewMain.updateButtonState nb taux heures = false).
Proof.
  assert (NewMain.areMainFieldsValid nb taux heures
          = js_gt nb (Num 0) && js_ge taux (Num 0) && js_ge heures (Num 0)) as Hv.
  { unfold NewMain.areMainFieldsValid.
    by destruct nb, taux, heures; simpl; rewrite ?andb_false_r, ?andb_true_r. }
  unfold NewMain.updateButtonState. rewrite Hv. split; [done|]. split; [done|].
  rewrite !andb_true_iff. intros [[Hnb ->] ->].
  destruct nb as [x|]; [|done]. unfold js_ge, js_le in Hnb.
  apply bool_decide_eq_true in Hnb. unfold js_gt, js_lt.
  rewrite bool_decide_eq_true_2; [done|]. qc_order.
Qed.

Lemma areMainFieldsValid_tests_witness :
  NewMain.updateButtonState (Num (Q2Qc 10)) (Num (Q2Qc 20)) (Num (Q2Qc 5)) = false.
Proof.
  apply (proj2 (proj2 (areMainFieldsValid_tests
                         (Num (Q2Qc 10)) (Num (Q2Qc 20)) (Num (Q2Qc 5))))).
  reflexivity.
Defined.

(** ** Clearing every field *)

Lemma clearAllErrors_eq (d : NewMain.page) :
  NewMain.clearAllErrors d
  = {| NewMain.inputNbEmployes := NewMain.clearFieldError (NewMain.inputNbEmployes d);
       NewMain.inputTauxHoraire := NewMain.clearFieldError (NewMain.inputTauxHoraire d);
       NewMain.inputHeures := NewMain.clearFieldError (NewMain.inputHeures d);
       NewMain.selectFrequence := NewMain.clearFieldError (NewMain.selectFrequence d);
       NewMain.productGrid := NewMain.productGrid d;
       NewMain.productsErrorMsg := NewMain.productsErrorMsg d |}.
Proof. reflexivity. Qed.

Lemma effacerToutesLesErreurs_eq (d : OldMain.page) :
  OldMain.effacerToutesLesErreurs d
  = {| OldMain.inputNbEmployes :=
         OldMain.effacerErreurChamp (OldMain.inputNbEmployes d);
       OldMain.inputTauxHoraire :=
         OldMain.effacerErreurChamp (OldMain.inputTauxHoraire d);
       OldMain.inputHeures := OldMain.effacerErreurChamp (OldMain.inputHeures d);
       OldMain.selectFrequence :=
         OldMain.effacerErreurChamp (OldMain.selectFrequence d);
       OldMain.productsError := OldMain.productsError d |}.
Proof. reflexivity. Qed.

(** X26: on a page whose four controls each stand in a group with at most
    one message, [clearAllErrors] leaves the four controls clean, whatever
    they showed, and touches neither the products message nor the grid; on
    a page whose controls are clean already it changes nothing.  The older
    [effacerToutesLesErreurs] does the same and leaves the products error
    element as it is. *)
Theorem clearAllErrors_clears (d : NewMain.page) (d0 : OldMain.page) :
  (tidy (NewMain.inputNbEmployes d) → tidy (NewMain.inputTauxHoraire d) →
   tidy (NewMain.inputHeures d) → tidy (NewMain.selectFrequence d) →
   let d' := NewMain.clearAllErrors d in
   shows (NewMain.inputNbEmployes d') None
   ∧ shows (NewMain.inputTauxHoraire d') None
   ∧ shows (NewMain.inputHeures d') None
   ∧ shows (NewMain.selectFrequence d') None
   ∧ NewMain.productsErrorMsg d' = NewMain.productsErrorMsg d
   ∧ NewMain.productGrid d' = NewMain.productGrid d)
  ∧ (shows (NewMain.inputNbEmployes d) None →
     shows (NewMain.inputTauxHoraire d) None →
     shows (NewMain.inputHeures d) None → shows (NewMain.selectFrequence d) None →
     NewMain.clearAllErrors d = d)
  ∧ (tidy (OldMain.inputNbEmployes d0) → tidy (OldMain.inputTauxHoraire d0) →
     tidy (OldMain.inputHeures d0) → tidy (OldMain.selectFrequence d0) →
     let d' := OldMain.effacerToutesLesErreurs d0 in
     shows (OldMain.inputNbEmployes d') None
     ∧ shows (OldMain.inputTauxHoraire d') None
     ∧ shows (OldMain.inputHeures d') None
     ∧ shows (OldMain.selectFrequence d') None
     ∧ OldMain.productsError d' = OldMain.productsError d0).
Proof.
  split; [|split].
  - intros H1 H2 H3 H4 d'. subst d'. rewrite clearAllErrors_eq.
    cbn [NewMain.inputNbEmployes NewMain.inputTauxHoraire NewMain.inputHeures
         NewMain.selectFrequence NewMain.productsErrorMsg NewMain.productGrid].
    repeat split; try done; by apply clearFieldError_shows.
  - intros S1 S2 S3 S4. rewrite clearAllErrors_eq.
    rewrite !clearFieldError_clean by done. by destruct d.
  - intros H1 H2 H3 H4 d'. subst d'. rewrite effacerToutesLesErreurs_eq.
    cbn [OldMain.inputNbEmployes OldMain.inputTauxHoraire OldMain.inputHeures
         OldMain.selectFrequence OldMain.productsError].
    repeat split; try done; by apply effacerErreurChamp_shows.
Qed.

Lemma clearAllErrors_clears_witness :
  shows (NewMain.inputNbEmployes
           (NewMain.clearAllErrors
              (NewMain.with_inputNbEmployes
                 (NewMain.setFieldError (freshControl "input") "message")
                 freshPage)))
        None
  ∧ NewMain.clearAllErrors freshPage = freshPage.
Proof.
  split.
  - refine (proj1 (proj1 (clearAllErrors_clears
                            (NewMain.with_inputNbEmployes
                               (NewMain.setFieldError (freshControl "input") "message")
                               freshPage)
                            freshOldPage) _ _ _ _)).
    1-4: eexists; split; [reflexivity|simpl; lia].
  - apply (proj1 (proj2 (clearAllErrors_clears freshPage freshOldPage)));
      (split; [apply not_elem_of_empty|]; split; reflexivity).
Defined.

(** ** The products message of the newer controller *)

(** X23: with the product grid on the page, [showProductsError] leaves
    exactly one products message carrying the given text, reusing the
    element that is there; calling it again only replaces the text;
    [clearProductsError] removes the message, whether one is there or not.
    Without the grid [showProductsError] does nothing.  Neither touches the
    four controls nor the grid. *)
Theorem products_error_helpers (d : NewMain.page) (m m' : string) :
  (NewMain.productGrid d = true →
   textContent <$> NewMain.productsErrorMsg (NewMain.showProductsError m d)
   = Some m
   ∧ NewMain.showProductsError m (NewMain.showProductsError m' d)
     = NewMain.showProductsError m d
   ∧ (∀ e, NewMain.productsErrorMsg d = Some e →
        NewMain.productsErrorMsg (NewMain.showProductsError m d)
        = Some (set_textContent m e)))
  ∧ (NewMain.productGrid d = false → NewMain.showProductsError m d = d)
  ∧ NewMain.productsErrorMsg
      (NewMain.clearProductsError (NewMain.showProductsError m d)) = None
  ∧ NewMain.inputNbEmployes (NewMain.showProductsError m d)
    = NewMain.inputNbEmployes d
  ∧ NewMain.inputTauxHoraire (NewMain.showProductsError m d)
    = NewMain.inputTauxHoraire d
  ∧ NewMain.inputHeures (NewMain.showProductsError m d) = NewMain.inputHeures d
  ∧ NewMain.selectFrequence (NewMain.showProductsError m d)
    = NewMain.selectFrequence d
  ∧ NewMain.productGrid (NewMain.showProductsError m d) = NewMain.productGrid d
  ∧ NewMain.productsErrorMsg (NewMain.clearProductsError d) = None
  ∧ NewMain.inputNbEmployes (NewMain.clearProductsError d)
    = NewMain.inputNbEmployes d
  ∧ NewMain.inputTauxHoraire (NewMain.clearProductsError d)
    = NewMain.inputTauxHoraire d
  ∧ NewMain.inputHeures (NewMain.clearProductsError d) = NewMain.inputHeures d
  ∧ NewMain.selectFrequence (NewMain.clearProductsError d)
    = NewMain.selectFrequence d
  ∧ NewMain.productGrid (NewMain.clearProductsError d) = NewMain.productGrid d.
Proof.
  destruct d as [c1 c2 c3 c4 grid msg]. unfold NewMain.showProductsError.
  cbn [NewMain.productGrid NewMain.productsErrorMsg].
  split; [|split; [by intros ->|destruct grid; by repeat split]].
  intros ->. cbn. split; [done|]. split; [by destruct msg|].
  by intros e ->.
Qed.

Lemma products_error_helpers_witness :
  textContent <$> NewMain.productsErrorMsg
                    (NewMain.showProductsError "message" freshPage)
  = Some "message".
Proof.
  apply (proj1 (products_error_helpers freshPage "message" "message")).
  reflexivity.
Defined.

(** ** The two animations side by side *)

Lemma frames_same v D st ts :
  NewMain.frames v D st ts = OldMain.frames v D st ts.
Proof.
  revert st. induction ts as [|t ts IH]; intros st; [done|].
  cbn [NewMain.frames OldMain.frames].
  change (NewMain.step v D st t) with (OldMain.step v D st t).
  destruct (OldMain.step v D st t) as [[st' shown] []]; [|done].
  by rewrite IH.
Qed.

(** X24: the newer [animateCounter], called without a duration as the page
    calls it, runs the same frames as the older [animerCompteur] called with
    1500 as its page calls it, for every final value and every run of
    timestamps: what is proved above of the older animation holds of the
    newer one. *)
Theorem animateCounter_same_frames (reducedMotion : bool) (v : number)
    (timestamps : list number) :
  NewMain.animateCounter reducedMotion v None timestamps
  = OldMain.animerCompteur reducedMotion v (VNumber (Num (Q2Qc 1500))) timestamps.
Proof.
  unfold NewMain.animateCounter, OldMain.animerCompteur.
  destruct reducedMotion; [done|]. cbn [default].
  rewrite frames_same. f_equal.
Qed.
